(** * DS impedance controller: a shallow embedding of
      [iiwa_control/src/ds_impedance_controller.cpp]

    Conventions of the embedding.

    - The C++ types [double] and [float] are both modelled by the real
      numbers [R]: arithmetic is exact, a literal denotes its decimal value
      ([0.2] is [2/10], [1e-3f] is [1/1000]), and no rounding, overflow or
      NaN is modelled.
    - Fixed-size Eigen objects ([Matrix<double,3,1>], [Matrix<double,4,1>],
      [Matrix<double,3,3>]) are records; dynamic ones ([VectorXd],
      [MatrixXd], [std::vector<double>]) are lists, a matrix being the list
      of its rows.
    - The collaborators of the controller (the kinematics tools, the
      passive-DS primitive, Eigen's Jacobi SVD) are type classes, and the
      readings of the hardware are an argument of the cycle: every result
      holds for whatever they compute.
    - The calls the controller makes on its collaborators are returned as
      a list, so that what a cycle does and does not call can be stated.
    - Reading [commands[i]] beyond the end of the command vector is
      undefined behaviour in the source; a cycle that does so has no
      result ([None]). *)

From Stdlib Require Import Reals Lra Lia List Bool Arith.
From Stdlib Require String.
Import ListNotations.

Open Scope R_scope.

(* ================================================================== *)
(** * Scalars and comparisons *)

(** [a > b] on doubles, as a boolean. *)
Definition Rgtb (a b : R) : bool := if Rlt_dec b a then true else false.

(** [a < b] on doubles, as a boolean. *)
Definition Rltb (a b : R) : bool := if Rlt_dec a b then true else false.

(* ================================================================== *)
(** * Fixed-size vectors and matrices *)

(** [Eigen::Matrix<double,3,1>] *)
Record Vector3d := mkVector3d { v3_0 : R; v3_1 : R; v3_2 : R }.

(** [Eigen::Matrix<double,4,1>]; a quaternion is stored scalar first. *)
Record Vector4d := mkVector4d { v4_0 : R; v4_1 : R; v4_2 : R; v4_3 : R }.

(** [Eigen::Matrix<double,3,3>]; [mIJ] is the coefficient [(I,J)]. *)
Record Matrix3d := mkMatrix3d {
  m00 : R; m01 : R; m02 : R;
  m10 : R; m11 : R; m12 : R;
  m20 : R; m21 : R; m22 : R
}.

Module V3.

Definition zero : Vector3d := mkVector3d 0 0 0.

Definition add (a b : Vector3d) : Vector3d :=
  mkVector3d (v3_0 a + v3_0 b) (v3_1 a + v3_1 b) (v3_2 a + v3_2 b).

Definition sub (a b : Vector3d) : Vector3d :=
  mkVector3d (v3_0 a - v3_0 b) (v3_1 a - v3_1 b) (v3_2 a - v3_2 b).

(** [s * a] *)
Definition scale (s : R) (a : Vector3d) : Vector3d :=
  mkVector3d (s * v3_0 a) (s * v3_1 a) (s * v3_2 a).

(** [a / s] *)
Definition div (a : Vector3d) (s : R) : Vector3d :=
  mkVector3d (v3_0 a / s) (v3_1 a / s) (v3_2 a / s).

(** [a.norm()] *)
Definition norm (a : Vector3d) : R :=
  sqrt (v3_0 a * v3_0 a + v3_1 a * v3_1 a + v3_2 a * v3_2 a).

Definition to_list (a : Vector3d) : list R := [v3_0 a; v3_1 a; v3_2 a].

End V3.

Module M3.

Definition mul (a b : Matrix3d) : Matrix3d :=
  mkMatrix3d
    (m00 a * m00 b + m01 a * m10 b + m02 a * m20 b)
    (m00 a * m01 b + m01 a * m11 b + m02 a * m21 b)
    (m00 a * m02 b + m01 a * m12 b + m02 a * m22 b)
    (m10 a * m00 b + m11 a * m10 b + m12 a * m20 b)
    (m10 a * m01 b + m11 a * m11 b + m12 a * m21 b)
    (m10 a * m02 b + m11 a * m12 b + m12 a * m22 b)
    (m20 a * m00 b + m21 a * m10 b + m22 a * m20 b)
    (m20 a * m01 b + m21 a * m11 b + m22 a * m21 b)
    (m20 a * m02 b + m21 a * m12 b + m22 a * m22 b).

Definition identity : Matrix3d := mkMatrix3d 1 0 0 0 1 0 0 0 1.

Definition det (a : Matrix3d) : R :=
  m00 a * (m11 a * m22 a - m12 a * m21 a)
  - m01 a * (m10 a * m22 a - m12 a * m20 a)
  + m02 a * (m10 a * m21 a - m11 a * m20 a).

(** [a.inverse()]: Eigen inverts a fixed 3x3 matrix by cofactors, the
    adjugate times the reciprocal of the determinant. *)
Definition inverse (a : Matrix3d) : Matrix3d :=
  let invdet := 1 / det a in
  mkMatrix3d
    ((m11 a * m22 a - m12 a * m21 a) * invdet)
    ((m02 a * m21 a - m01 a * m22 a) * invdet)
    ((m01 a * m12 a - m02 a * m11 a) * invdet)
    ((m12 a * m20 a - m10 a * m22 a) * invdet)
    ((m00 a * m22 a - m02 a * m20 a) * invdet)
    ((m02 a * m10 a - m00 a * m12 a) * invdet)
    ((m10 a * m21 a - m11 a * m20 a) * invdet)
    ((m01 a * m20 a - m00 a * m21 a) * invdet)
    ((m00 a * m11 a - m01 a * m10 a) * invdet).

End M3.

(* ================================================================== *)
(** * Rotation algebra (lines 27-119 of the source) *)

(** The four arms of the [if]/[else if] chain of
    [rotationMatrixToQuaternion], named after the quaternion component each
    arm computes first, through a square root. *)
Inductive Branch := BranchW | BranchX | BranchY | BranchZ.

Definition trace0 (Rm : Matrix3d) : R := m00 Rm + m11 Rm + m22 Rm.
Definition trace1 (Rm : Matrix3d) : R := m00 Rm - m11 Rm - m22 Rm.
Definition trace2 (Rm : Matrix3d) : R := - m00 Rm + m11 Rm - m22 Rm.
Definition trace3 (Rm : Matrix3d) : R := - m00 Rm - m11 Rm + m22 Rm.

(** The conditions of the chain, in the order the source tests them. *)
Definition selected_branch (Rm : Matrix3d) : Branch :=
  let tr := trace0 Rm in
  let tr1 := trace1 Rm in
  let tr2 := trace2 Rm in
  let tr3 := trace3 Rm in
  if Rgtb tr 0 then BranchW
  else if Rgtb tr1 tr2 && Rgtb tr1 tr3 then BranchX
  else if Rgtb tr2 tr1 && Rgtb tr2 tr3 then BranchY
  else BranchZ.

Definition rotationMatrixToQuaternion (Rm : Matrix3d) : Vector4d :=
  let r11 := m00 Rm in
  let r12 := m01 Rm in
  let r13 := m02 Rm in
  let r21 := m10 Rm in
  let r22 := m11 Rm in
  let r23 := m12 Rm in
  let r31 := m20 Rm in
  let r32 := m21 Rm in
  let r33 := m22 Rm in
  let tr := r11 + r22 + r33 in
  let tr1 := r11 - r22 - r33 in
  let tr2 := - r11 + r22 - r33 in
  let tr3 := - r11 - r22 + r33 in
  match selected_branch Rm with
  | BranchW =>
      let q0 := sqrt (1 + tr) / 2 in
      mkVector4d q0
        ((r32 - r23) / (4 * q0))
        ((r13 - r31) / (4 * q0))
        ((r21 - r12) / (4 * q0))
  | BranchX =>
      let q1 := sqrt (1 + tr1) / 2 in
      mkVector4d ((r32 - r23) / (4 * q1))
        q1
        ((r21 + r12) / (4 * q1))
        ((r31 + r13) / (4 * q1))
  | BranchY =>
      let q2 := sqrt (1 + tr2) / 2 in
      mkVector4d ((r13 - r31) / (4 * q2))
        ((r21 + r12) / (4 * q2))
        q2
        ((r32 + r23) / (4 * q2))
  | BranchZ =>
      let q3 := sqrt (1 + tr3) / 2 in
      mkVector4d ((r21 - r12) / (4 * q3))
        ((r31 + r13) / (4 * q3))
        ((r32 + r23) / (4 * q3))
        q3
  end.

Definition quaternionToRotationMatrix (q : Vector4d) : Matrix3d :=
  let q0 := v4_0 q in
  let q1 := v4_1 q in
  let q2 := v4_2 q in
  let q3 := v4_3 q in
  mkMatrix3d
    (q0 * q0 + q1 * q1 - q2 * q2 - q3 * q3)
    (2 * (q1 * q2 - q0 * q3))
    (2 * (q1 * q3 + q0 * q2))
    (2 * (q1 * q2 + q0 * q3))
    (q0 * q0 - q1 * q1 + q2 * q2 - q3 * q3)
    (2 * (q2 * q3 - q0 * q1))
    (2 * (q1 * q3 - q0 * q2))
    (2 * (q2 * q3 + q0 * q1))
    (q0 * q0 - q1 * q1 - q2 * q2 + q3 * q3).

(** [q.segment(1,3)] *)
Definition segment_1_3 (q : Vector4d) : Vector3d :=
  mkVector3d (v4_1 q) (v4_2 q) (v4_3 q).

(** The two reference parameters [axis] and [angle] are returned as a
    pair. *)
Definition quaternionToAxisAngle (q : Vector4d) : Vector3d * R :=
  let axis :=
    if Rltb (V3.norm (segment_1_3 q)) (1 / 1000)
    then segment_1_3 q
    else V3.div (segment_1_3 q) (V3.norm (segment_1_3 q)) in
  let angle := 2 * acos (v4_0 q) in
  (axis, angle).

(** A matrix is a rotation when it is orthonormal with determinant one. *)
Definition is_rotation (Rm : Matrix3d) : Prop :=
  m00 Rm * m00 Rm + m01 Rm * m01 Rm + m02 Rm * m02 Rm = 1 /\
  m10 Rm * m10 Rm + m11 Rm * m11 Rm + m12 Rm * m12 Rm = 1 /\
  m20 Rm * m20 Rm + m21 Rm * m21 Rm + m22 Rm * m22 Rm = 1 /\
  m00 Rm * m10 Rm + m01 Rm * m11 Rm + m02 Rm * m12 Rm = 0 /\
  m00 Rm * m20 Rm + m01 Rm * m21 Rm + m02 Rm * m22 Rm = 0 /\
  m10 Rm * m20 Rm + m11 Rm * m21 Rm + m12 Rm * m22 Rm = 0 /\
  M3.det Rm = 1.

(* ================================================================== *)
(** * Dynamic vectors and matrices *)

(** [Eigen::VectorXd] and [std::vector<double>] *)
Definition VectorXd := list R.

(** [Eigen::MatrixXd], the list of its rows.  A matrix without rows has no
    columns; the controller never builds one, [init] refusing an empty
    joint list. *)
Definition MatrixXd := list (list R).

(** [l] with its [i]-th element replaced by [f] of it; [l] itself when [i]
    is out of range. *)
Fixpoint update_nth {A : Type} (i : nat) (f : A -> A) (l : list A) : list A :=
  match l, i with
  | [], _ => []
  | x :: t, O => f x :: t
  | x :: t, S k => x :: update_nth k f t
  end.

(** The sum of [f 0 .. f (n-1)], accumulated from index 0 upwards. *)
Fixpoint sum_upto (n : nat) (f : nat -> R) : R :=
  match n with
  | O => 0
  | S k => sum_upto k f + f k
  end.

Module VX.

Definition coeff (v : VectorXd) (i : nat) : R := nth i v 0.

Definition build (n : nat) (f : nat -> R) : VectorXd := map f (seq 0 n).

(** [a - b]; Eigen requires equal sizes, and the result has the size of
    [a]. *)
Definition sub (a b : VectorXd) : VectorXd :=
  build (length a) (fun i => coeff a i - coeff b i).

(** [a + b] *)
Definition add (a b : VectorXd) : VectorXd :=
  build (length a) (fun i => coeff a i + coeff b i).

(** [s * a] *)
Definition scale (s : R) (a : VectorXd) : VectorXd :=
  build (length a) (fun i => s * coeff a i).

(** [v.segment(start,3)] read as a 3-vector. *)
Definition segment3 (start : nat) (v : VectorXd) : Vector3d :=
  mkVector3d (coeff v start) (coeff v (start + 1)) (coeff v (start + 2)).

(** [v.segment(start,3) = a] *)
Definition set_segment3 (start : nat) (a : Vector3d) (v : VectorXd) : VectorXd :=
  update_nth (start + 2) (fun _ => v3_2 a)
    (update_nth (start + 1) (fun _ => v3_1 a)
       (update_nth start (fun _ => v3_0 a) v)).

End VX.

Module MX.

Definition rows (M : MatrixXd) : nat := length M.

Definition cols (M : MatrixXd) : nat := length (hd [] M).

(** [M(i,j)] *)
Definition coeff (M : MatrixXd) (i j : nat) : R := nth j (nth i M []) 0.

(** The [r] x [c] matrix of coefficients [f i j]. *)
Definition build (r c : nat) (f : nat -> nat -> R) : MatrixXd :=
  map (fun i => map (fun j => f i j) (seq 0 c)) (seq 0 r).

(** [M.setZero()] on an [r] x [c] matrix *)
Definition Zero (r c : nat) : MatrixXd := build r c (fun _ _ => 0).

(** [MatrixXd::Identity(r,c)] *)
Definition Identity (r c : nat) : MatrixXd :=
  build r c (fun i j => if Nat.eqb i j then 1 else 0).

(** [M(i,j) = v]; nothing is written out of range. *)
Definition set_coeff (i j : nat) (v : R) (M : MatrixXd) : MatrixXd :=
  update_nth i (update_nth j (fun _ => v)) M.

(** [M.transpose()] *)
Definition transpose (M : MatrixXd) : MatrixXd :=
  build (cols M) (rows M) (fun i j => coeff M j i).

(** [A * B] *)
Definition mul (A B : MatrixXd) : MatrixXd :=
  build (rows A) (cols B)
    (fun i j => sum_upto (cols A) (fun k => coeff A i k * coeff B k j)).

(** [A - B] *)
Definition sub (A B : MatrixXd) : MatrixXd :=
  build (rows A) (cols A) (fun i j => coeff A i j - coeff B i j).

(** [A * v] for a column vector [v] *)
Definition mul_vec (A : MatrixXd) (v : VectorXd) : VectorXd :=
  VX.build (rows A)
    (fun i => sum_upto (cols A) (fun k => coeff A i k * VX.coeff v k)).

(** The [r] x [c] matrix that carries [d] on its main diagonal and zero
    everywhere else. *)
Definition diagonal (r c : nat) (d : list R) : MatrixXd :=
  build r c (fun i j => if Nat.eqb i j then nth i d 0 else 0).

End MX.

(* ================================================================== *)
(** * Damped pseudo-inverse (lines 10-23 of the source) *)

(** [Eigen::JacobiSVD<MatrixXd> svd(M, ComputeFullU | ComputeFullV)]: the
    decomposition is Eigen's; only its three accessors are used. *)
Class JacobiSVD := {
  matrixU : MatrixXd -> MatrixXd;
  singularValues : MatrixXd -> VectorXd;
  matrixV : MatrixXd -> MatrixXd
}.

(** [double lambda_ = damped?0.2:0.0;] *)
Definition damping (damped : bool) : R := if damped then 2 / 10 else 0.

(** The divisor of line 20, [sigma*sigma + lambda_*lambda_]. *)
Definition divisor (lambda_ sigma : R) : R :=
  sigma * sigma + lambda_ * lambda_.

(** The right-hand side of line 20. *)
Definition damped_value (lambda_ sigma : R) : R :=
  sigma / divisor lambda_ sigma.

(** The loop of lines 19-20, run for [i] in [0 .. n-1]. *)
Definition fill_diagonal (lambda_ : R) (sing_vals_ : VectorXd) (n : nat)
    (S_ : MatrixXd) : MatrixXd :=
  fold_left
    (fun S i => MX.set_coeff i i (damped_value lambda_ (VX.coeff sing_vals_ i)) S)
    (seq 0 n) S_.

(** The output parameter [Mpinv] is the result. *)
Definition pseudo_inverse `{JacobiSVD} (M : MatrixXd) (damped : bool) : MatrixXd :=
  let lambda_ := damping damped in
  let sing_vals_ := singularValues M in
  let S_ := MX.Zero (MX.rows M) (MX.cols M) in
  let S_ := fill_diagonal lambda_ sing_vals_ (length sing_vals_) S_ in
  MX.mul (MX.mul (matrixV M) (MX.transpose S_)) (MX.transpose (matrixU M)).

(* ================================================================== *)
(** * The collaborators of the controller *)

(** [iiwa_tools::RobotState] *)
Record RobotState := mkRobotState {
  position : VectorXd;
  velocity : VectorXd
}.

(** The end-effector state returned by [perform_fk]; the orientation is
    kept in the order [w, x, y, z] in which line 241 reads it. *)
Record EEState := mkEEState {
  translation : Vector3d;
  orientation : Vector4d
}.

(** [tools_], the kinematics provider. *)
Class IiwaTools := {
  perform_fk : RobotState -> EEState;
  jacobian : RobotState -> MatrixXd
}.

(** [passive_ds_], the velocity-tracking primitive: an opaque state and the
    calls the controller makes on it.  [SetInput] and [Update] receive the
    [velocity_] member of the state they are given. *)
Class PassiveDSController := {
  PassiveDS : Type;
  SetParams : nat -> list R -> PassiveDS -> PassiveDS;
  SetInput : Vector3d -> PassiveDS -> PassiveDS;
  Update : Vector3d -> PassiveDS -> PassiveDS;
  GetOutput_force : PassiveDS -> Vector3d
}.

(** What [joints_[i].getPosition()] and [joints_[i].getVelocity()] return
    during one cycle. *)
Record Hardware := mkHardware {
  getPosition : nat -> R;
  getVelocity : nat -> R
}.

(** The fields of [DSImpedance_paramConfig] that the callback reads. *)
Record Config := mkConfig {
  gain0 : R;
  gain1 : R;
  rotationalStiffness : R;
  rotationalDamping : R;
  useNullSpace : bool;
  jointLimitsGain : R;
  desiredJointsGain : R;
  jointVelocitiesGain : R
}.

(** Every call that leaves the controller, in the order it is made. *)
Inductive Call :=
| CallGetPosition (i : nat)
| CallGetVelocity (i : nat)
| CallPerformFk
| CallJacobian
| CallSetParams (dim : nat) (eigvals : list R)
| CallSetInput (v : Vector3d)
| CallUpdate (v : Vector3d)
| CallGetOutput
| CallJacobiSVD
| CallSetCommand (i : nat) (effort : R)
| CallRosError (size : nat).

(* ================================================================== *)
(** * The controller (lines 121-381 of the source) *)

(** The members of [DSImpedanceController] that [update], [commandCB],
    [enforceJointLimits] and [dynamicReconfigureCallback] read or write.
    [commands_buffer_] holds the vector last written to the realtime
    buffer, and [joint_urdfs_ i] is [joint_urdfs_[i]->limits->effort]. *)
Record DSImpedanceController `{PassiveDSController} := mkController {
  n_joints_ : nat;
  joint_urdfs_ : nat -> R;
  firstCommand_ : bool;
  useNullSpace_ : bool;
  rotationalStiffness_ : R;
  rotationalDamping_ : R;
  jointLimitsGain_ : R;
  desiredJointsGain_ : R;
  jointVelocitiesGain_ : R;
  j0_ : VectorXd;
  commands_buffer_ : list R;
  passive_ds_ : PassiveDS;
  x_ : Vector3d;
  q_ : Vector4d;
  vd_ : Vector3d;
  omegad_ : Vector3d;
  qd_ : Vector4d
}.

Arguments mkController {_}.

(** The posture the constructor stores in [j0_] (line 130). *)
Definition j0_constructed : VectorXd :=
  [- 0; 75 / 100; 0; - (165 / 100); 0; 76 / 100; 0].

(** The vector [init] writes to the buffer (line 215). *)
Definition commands_initial : list R := repeat 0 10%nat.

Section Controller.

Context `{PDS : PassiveDSController} `{Tools : IiwaTools} `{SVD : JacobiSVD}.

(** Lines 264-268: [commands[0]] to [commands[9]] are read without a
    bounds check; a vector shorter than ten makes the read undefined
    behaviour, which is [None] here. *)
Definition read_commands (commands : list R)
    : option (Vector3d * Vector3d * Vector4d) :=
  match commands with
  | c0 :: c1 :: c2 :: c3 :: c4 :: c5 :: c6 :: c7 :: c8 :: c9 :: _ =>
      Some (mkVector3d c0 c1 c2, mkVector3d c3 c4 c5, mkVector4d c6 c7 c8 c9)
  | _ => None
  end.

Definition enforceJointLimits (c : DSImpedanceController) (command : R)
    (index : nat) : R :=
  if Rgtb command (joint_urdfs_ c index) then joint_urdfs_ c index
  else if Rltb command (- joint_urdfs_ c index) then - joint_urdfs_ c index
  else command.

(** The calls of the two loops reading the joints (lines 233-236 and
    255-258). *)
Definition read_joints (n : nat) : list Call :=
  flat_map (fun i => [CallGetPosition i; CallGetVelocity i]) (seq 0 n).

(** The local variables of the active branch of [update] that the
    properties talk about, as they stand when the branch ends;
    [primary] is [torques] after line 309 and [torques] is the same
    variable after line 323. *)
Record Locals := mkLocals {
  l_jac : MatrixXd;
  l_omega : Vector3d;
  l_v : Vector3d;
  l_Flin : Vector3d;
  l_Re : Matrix3d;
  l_axis : Vector3d;
  l_angle : R;
  l_Frot : Vector3d;
  l_wrench : VectorXd;
  l_primary : VectorXd;
  l_N : MatrixXd;
  l_nullspaceTorques : VectorXd;
  l_torques : VectorXd;
  l_commanded_effort : list R
}.

(** Lines 229-332, the branch of [update] taken once a command has
    arrived.  The result is the controller afterwards, the locals and
    the calls made; [None] is the undefined read of a short command
    vector. *)
Definition update_active (c : DSImpedanceController) (hw : Hardware)
    : option (DSImpedanceController * Locals * list Call) :=
  let n := n_joints_ c in
  let robot_state :=
    mkRobotState (VX.build n (getPosition hw)) (VX.build n (getVelocity hw)) in
  let ee_state := perform_fk robot_state in
  let x := translation ee_state in
  let q := orientation ee_state in
  let jac := jacobian robot_state in
  let j := VX.build n (getPosition hw) in
  let jv := VX.build n (getVelocity hw) in
  let twist := MX.mul_vec jac jv in
  let omega := VX.segment3 0 twist in
  let v := VX.segment3 3 twist in
  match read_commands (commands_buffer_ c) with
  | None => None
  | Some (vd, omegad, qd) =>
      let pds := SetInput vd (passive_ds_ c) in
      let pds := Update v pds in
      let Flin := GetOutput_force pds in
      let Rcur := quaternionToRotationMatrix q in
      let Rd := quaternionToRotationMatrix qd in
      let Re := M3.mul Rd (M3.inverse Rcur) in
      let qe := rotationMatrixToQuaternion Re in
      let (axis, angle) := quaternionToAxisAngle qe in
      let angle := 2 * acos (v4_0 qe) in
      let Frot :=
        V3.add (V3.scale (rotationalStiffness_ c * angle) axis)
               (V3.scale (rotationalDamping_ c) (V3.sub omegad omega)) in
      let wrench := repeat 0 6%nat in
      let wrench := VX.set_segment3 3 Flin wrench in
      let wrench := VX.set_segment3 0 Frot wrench in
      let primary := MX.mul_vec (MX.transpose jac) wrench in
      let jacPinv := pseudo_inverse (MX.transpose jac) true in
      let N := MX.sub (MX.Identity n n) (MX.mul (MX.transpose jac) jacPinv) in
      let nullspaceTorques :=
        MX.mul_vec N
          (VX.sub
             (VX.sub (VX.scale (- jointLimitsGain_ c) j)
                     (VX.scale (desiredJointsGain_ c) (VX.sub j (j0_ c))))
             (VX.scale (jointVelocitiesGain_ c) jv)) in
      let torques :=
        if useNullSpace_ c then VX.add primary nullspaceTorques else primary in
      let commanded_effort :=
        VX.build n (fun i => enforceJointLimits c (VX.coeff torques i) i) in
      Some
        (mkController n (joint_urdfs_ c) (firstCommand_ c) (useNullSpace_ c)
           (rotationalStiffness_ c) (rotationalDamping_ c)
           (jointLimitsGain_ c) (desiredJointsGain_ c)
           (jointVelocitiesGain_ c) (j0_ c) (commands_buffer_ c)
           pds x q vd omegad qd,
         mkLocals jac omega v Flin Re axis angle Frot wrench primary N
           nullspaceTorques torques commanded_effort,
         read_joints n ++ [CallPerformFk; CallJacobian] ++ read_joints n
           ++ [CallSetInput vd; CallUpdate v; CallGetOutput; CallJacobiSVD]
           ++ map (fun i => CallSetCommand i (VX.coeff commanded_effort i))
                  (seq 0 n))
  end.

(** [update]: the controller afterwards and the calls made. *)
Definition update (c : DSImpedanceController) (hw : Hardware)
    : option (DSImpedanceController * list Call) :=
  if firstCommand_ c then
    match update_active c hw with
    | Some (c', _, calls) => Some (c', calls)
    | None => None
    end
  else
    Some (c, map (fun i => CallSetCommand i 0) (seq 0 (n_joints_ c))).

(** [commandCB] on a message whose [data] is [data]. *)
Definition commandCB (c : DSImpedanceController) (data : list R)
    : DSImpedanceController * list Call :=
  if negb (Nat.eqb (length data) (n_joints_ c))
     && negb (Nat.eqb (length data) 10)
  then (c, [CallRosError (length data)])
  else
    (mkController (n_joints_ c) (joint_urdfs_ c)
       (if negb (firstCommand_ c) then true else firstCommand_ c)
       (useNullSpace_ c)
       (rotationalStiffness_ c) (rotationalDamping_ c)
       (jointLimitsGain_ c) (desiredJointsGain_ c)
       (jointVelocitiesGain_ c) (j0_ c) data
       (passive_ds_ c) (x_ c) (q_ c) (vd_ c) (omegad_ c) (qd_ c),
     []).

(** The vector built by the three [push_back] of lines 371-373. *)
Definition eigvals_vec (config : Config) : list R :=
  (([] ++ [gain0 config]) ++ [gain1 config]) ++ [gain1 config].

Definition dynamicReconfigureCallback (c : DSImpedanceController)
    (config : Config) : DSImpedanceController * list Call :=
  (mkController (n_joints_ c) (joint_urdfs_ c) (firstCommand_ c)
     (useNullSpace config)
     (rotationalStiffness config) (rotationalDamping config)
     (jointLimitsGain config) (desiredJointsGain config)
     (jointVelocitiesGain config) (j0_ c) (commands_buffer_ c)
     (SetParams 3 (eigvals_vec config) (passive_ds_ c))
     (x_ c) (q_ c) (vd_ c) (omegad_ c) (qd_ c),
   [CallSetParams 3 (eigvals_vec config)]).

End Controller.

(** The efforts handed to [joints_[i].setCommand], with their joint, in
    the order of the calls. *)
Definition set_commands (calls : list Call) : list (nat * R) :=
  flat_map
    (fun call =>
       match call with
       | CallSetCommand i effort => [(i, effort)]
       | _ => []
       end)
    calls.

(** The joint state the active branch assembles from the hardware. *)
Definition robot_state_of (n : nat) (hw : Hardware) : RobotState :=
  mkRobotState (VX.build n (getPosition hw)) (VX.build n (getVelocity hw)).

(* ================================================================== *)
(** * The specification's formulas, written from its own words *)

Module Spec.

(** "the diagonal matrix whose i-th entry is sigma_i/(sigma_i^2+lambda^2)
    with lambda=0.2 when damped else lambda=0", of the shape of the
    transpose of an [r] x [c] matrix. *)
Definition Sigma_damped (r c : nat) (damped : bool) (sigma : list R) : MatrixXd :=
  let lambda := if damped then 2 / 10 else 0 in
  MX.diagonal c r (map (fun s => s / (s * s + lambda * lambda)) sigma).

(** "error rotation Re = Rd . R^-1" of the current quaternion [q] and the
    desired one [qd]. *)
Definition error_rotation (q qd : Vector4d) : Matrix3d :=
  M3.mul (quaternionToRotationMatrix qd)
         (M3.inverse (quaternionToRotationMatrix q)).

(** "Convert Re back to a quaternion qe, then to axis-angle". *)
Definition axis_angle (Re : Matrix3d) : Vector3d * R :=
  quaternionToAxisAngle (rotationMatrixToQuaternion Re).

(** "stiffness . angle . axis + damping . (omega_d - omega)" *)
Definition rotational_wrench (stiffness damping : R) (q qd : Vector4d)
    (omegad omega : Vector3d) : Vector3d :=
  let axis := fst (axis_angle (error_rotation q qd)) in
  let angle := snd (axis_angle (error_rotation q qd)) in
  V3.add (V3.scale (stiffness * angle) axis)
         (V3.scale damping (V3.sub omegad omega)).

(** "6-vector wrench [rotational; linear]" *)
Definition wrench (rotational linear : Vector3d) : VectorXd :=
  V3.to_list rotational ++ V3.to_list linear.

(** "N = I - Jacobian^t . pseudoInverse(Jacobian^t)" *)
Definition nullspace_projector `{JacobiSVD} (n : nat) (J : MatrixXd) : MatrixXd :=
  MX.sub (MX.Identity n n)
         (MX.mul (MX.transpose J) (pseudo_inverse (MX.transpose J) true)).

(** "-jointLimitsGain.q - desiredPostureGain.(q - referencePosture)
    - jointVelocityGain.qdot" *)
Definition secondary_objective (jointLimitsGain desiredPostureGain
    jointVelocityGain : R) (q referencePosture qdot : VectorXd) : VectorXd :=
  VX.sub
    (VX.sub (VX.scale (- jointLimitsGain) q)
            (VX.scale desiredPostureGain (VX.sub q referencePosture)))
    (VX.scale jointVelocityGain qdot).

End Spec.

(** The trace-like quantity that belongs to a branch. *)
Definition branch_trace (b : Branch) (Rm : Matrix3d) : R :=
  match b with
  | BranchW => trace0 Rm
  | BranchX => trace1 Rm
  | BranchY => trace2 Rm
  | BranchZ => trace3 Rm
  end.

(* ================================================================== *)
(** * Concrete inputs *)

Module Examples.

(** The rotation about the x axis of the unit quaternion
    [(3/5, 4/5, 0, 0)]. *)
Definition q_x : Vector4d := mkVector4d (3 / 5) (4 / 5) 0 0.

Definition R_x : Matrix3d :=
  mkMatrix3d 1 0 0
             0 (- (7 / 25)) (- (24 / 25))
             0 (24 / 25) (- (7 / 25)).

(** The identity quaternion and a half turn about the x axis. *)
Definition q_identity : Vector4d := mkVector4d 1 0 0 0.
Definition q_half_turn : Vector4d := mkVector4d 0 1 0 0.

(** A velocity-tracking primitive that stores its eigenvalues and the
    desired velocity and answers the first eigenvalue times the velocity
    error. *)
Definition pds : PassiveDSController := {|
  PassiveDS := list R * Vector3d * Vector3d;
  SetParams := fun _ eig s => (eig, snd (fst s), snd s);
  SetInput := fun vd s => (fst (fst s), vd, snd s);
  Update := fun v s =>
    (fst (fst s), snd (fst s),
     V3.scale (nth 0 (fst (fst s)) 0) (V3.sub (snd (fst s)) v));
  GetOutput_force := fun s => snd s
|}.

(** A kinematics provider with a constant pose and Jacobian. *)
Definition tools : IiwaTools := {|
  perform_fk := fun _ => mkEEState V3.zero q_identity;
  jacobian := fun rs => MX.Identity 6 (length (position rs))
|}.

(** A decomposition that answers identity factors and the diagonal of its
    argument. *)
Definition svd : JacobiSVD := {|
  matrixU := fun M => MX.Identity (MX.rows M) (MX.rows M);
  singularValues := fun M =>
    VX.build (Nat.min (MX.rows M) (MX.cols M)) (fun i => MX.coeff M i i);
  matrixV := fun M => MX.Identity (MX.cols M) (MX.cols M)
|}.

Definition hw : Hardware := mkHardware (fun _ => 0) (fun _ => 0).

(** A seven-joint controller in which no command has arrived: the state
    [init] leaves, with effort limits of 100. *)
Definition idle : @DSImpedanceController pds :=
  @mkController pds 7 (fun _ => 100) false false 0 0 0 0 0 j0_constructed
    commands_initial ([1; 1; 1], V3.zero, V3.zero)
    V3.zero q_identity V3.zero V3.zero q_identity.

(** The same controller after a command of ten values has arrived. *)
Definition command : list R := [0; 0; 0; 0; 0; 0; 1; 0; 0; 0].

Definition active : @DSImpedanceController pds :=
  @mkController pds 7 (fun _ => 100) true true 0 0 0 0 0 j0_constructed
    command ([1; 1; 1], V3.zero, V3.zero)
    V3.zero q_identity V3.zero V3.zero q_identity.

(** A message of seven values, one per joint. *)
Definition short_command : list R := [1; 2; 3; 4; 5; 6; 7].

Definition config : Config := mkConfig 5 6 10 2 true 1 2 3.

End Examples.

(* ================================================================== *)
(** * Unit quaternions, sign and transposition *)

(** [-q] *)
Definition V4_opp (q : Vector4d) : Vector4d :=
  mkVector4d (- v4_0 q) (- v4_1 q) (- v4_2 q) (- v4_3 q).

Definition unit_quaternion (q : Vector4d) : Prop :=
  v4_0 q * v4_0 q + v4_1 q * v4_1 q + v4_2 q * v4_2 q + v4_3 q * v4_3 q = 1.

(** [a.transpose()] *)
Definition M3_transpose (a : Matrix3d) : Matrix3d :=
  mkMatrix3d (m00 a) (m10 a) (m20 a)
             (m01 a) (m11 a) (m21 a)
             (m02 a) (m12 a) (m22 a).

(* ================================================================== *)
(** * Construction and initialisation (lines 121-223 of the source) *)

(** [passive_ds_.Init()], the one call of [init] on the primitive that the
    cycle and the callbacks do not make. *)
Class PassiveDSInit `{PassiveDSController} := {
  Init : PassiveDS -> PassiveDS
}.

(** The constructor, on the object as its member initialisers leave it:
    the five gains are set to zero and [j0_] to the reference posture;
    every other member is left alone. *)
Definition construct `{PassiveDSController} (c : DSImpedanceController)
    : DSImpedanceController :=
  mkController (n_joints_ c) (joint_urdfs_ c) (firstCommand_ c)
    (useNullSpace_ c) 0 0 0 0 0 j0_constructed (commands_buffer_ c)
    (passive_ds_ c) (x_ c) (q_ c) (vd_ c) (omegad_ c) (qd_ c).

(** What [init] asks of the hardware interface, of the URDF model, of
    the parameter server and of the reconfigure server.  [env_getParam]
    lists the strings that the successive polls of line 174 leave in
    [urdf_string]; [env_getHandle] is [false] where [hw->getHandle]
    throws; [env_getJoint] is [None] where [urdf.getJoint] answers a null
    pointer, and otherwise the [limits->effort] of the joint;
    [env_setCallback] is the configuration with which the reconfigure
    server calls the callback back while line 218 registers it, when it
    does. *)
Record InitEnv := mkInitEnv {
  env_getNames : list String.string;
  env_initParam : bool;
  env_searchParam : bool;
  env_getParam : list String.string;
  env_getHandle : String.string -> bool;
  env_getJoint : String.string -> option R;
  env_setCallback : option Config
}.

(** The [return false] of [init], one constructor per place. *)
Inductive InitError :=
| ErrEmptyJointNames
| ErrUrdfParse
| ErrParamNotFound
| ErrHandle (name : String.string)
| ErrJointNotInUrdf (name : String.string).

(** The loop of lines 169-177: it polls until the string is not empty and
    has no result when it never is. *)
Fixpoint wait_urdf (polls : list String.string) : option String.string :=
  match polls with
  | [] => None
  | s :: later =>
      if String.eqb s String.EmptyString then wait_urdf later else Some s
  end.

(** The loop of lines 198-213 over the joint names still to visit, with
    the handles and effort limits pushed so far. *)
Fixpoint init_joints (env : InitEnv) (names : list String.string)
    (joints : list String.string) (joint_urdfs : list R)
    : InitError + (list String.string * list R) :=
  match names with
  | [] => inr (joints, joint_urdfs)
  | name :: later =>
      if env_getHandle env name then
        match env_getJoint env name with
        | Some effort =>
            init_joints env later (joints ++ [name]) (joint_urdfs ++ [effort])
        | None => inl (ErrJointNotInUrdf name)
        end
      else inl (ErrHandle name)
  end.

(** [init] on the constructed object [c]: [None] while the model string
    never arrives, otherwise the reason of [return false], or the
    controller and the joints whose handles it holds on [return true]. *)
Definition init `{PassiveDSInit} (c : DSImpedanceController) (env : InitEnv)
    : option (InitError + (DSImpedanceController * list String.string)) :=
  let joint_names_ := env_getNames env in
  let n_joints := length joint_names_ in
  if Nat.eqb n_joints 0 then Some (inl ErrEmptyJointNames)
  else if negb (env_initParam env) then Some (inl ErrUrdfParse)
  else if negb (env_searchParam env) then Some (inl ErrParamNotFound)
  else
    match wait_urdf (env_getParam env) with
    | None => None
    | Some urdf_string =>
        let eigvals_vec := [1; 1; 1] in
        let pds := Init (SetParams 3 eigvals_vec (passive_ds_ c)) in
        match init_joints env joint_names_ [] [] with
        | inl e => Some (inl e)
        | inr (joints, joint_urdfs) =>
            let c1 :=
              mkController n_joints (fun i => nth i joint_urdfs 0)
                (firstCommand_ c) (useNullSpace_ c)
                (rotationalStiffness_ c) (rotationalDamping_ c)
                (jointLimitsGain_ c) (desiredJointsGain_ c)
                (jointVelocitiesGain_ c) (j0_ c)
                (repeat 0 10%nat) pds
                (x_ c) (q_ c) (vd_ c) (omegad_ c) (qd_ c) in
            let c2 :=
              match env_setCallback env with
              | Some config => fst (dynamicReconfigureCallback c1 config)
              | None => c1
              end in
            Some (inr (c2, joints))
        end
    end.

(** A joint that [init] can register: the hardware has a handle for it and
    the URDF model knows it. *)
Definition registrable (env : InitEnv) (name : String.string) : Prop :=
  env_getHandle env name = true /\ env_getJoint env name <> None.

(** The effort limit the URDF model gives for a joint it knows. *)
Definition effort_of (env : InitEnv) (name : String.string) : R :=
  match env_getJoint env name with
  | Some effort => effort
  | None => 0
  end.

(* ================================================================== *)
(** * Callbacks and cycles in sequence *)

(** What reaches the controller once it runs: a message on the command
    topic, a reconfiguration, or a tick of the control loop with the
    readings of the hardware at that tick. *)
Inductive Op :=
| OpCommand (data : list R)
| OpReconfigure (config : Config)
| OpCycle (hw : Hardware).

Section Run.

Context `{PDS : PassiveDSController} `{Tools : IiwaTools} `{SVD : JacobiSVD}.

Definition step (c : DSImpedanceController) (op : Op)
    : option (DSImpedanceController * list Call) :=
  match op with
  | OpCommand data => Some (commandCB c data)
  | OpReconfigure config => Some (dynamicReconfigureCallback c config)
  | OpCycle hw => update c hw
  end.

(** The operations one after the other, the calls concatenated; [None] as
    soon as a cycle is undefined. *)
Fixpoint run (c : DSImpedanceController) (ops : list Op)
    : option (DSImpedanceController * list Call) :=
  match ops with
  | [] => Some (c, [])
  | op :: later =>
      match step c op with
      | None => None
      | Some (c1, calls1) =>
          match run c1 later with
          | None => None
          | Some (c2, calls2) => Some (c2, calls1 ++ calls2)
          end
      end
  end.

(** The messages among the operations. *)
Definition messages (ops : list Op) : list (list R) :=
  flat_map (fun op => match op with OpCommand data => [data] | _ => [] end) ops.

End Run.

(* ================================================================== *)
(** * Concrete inputs of the initialisation *)

Import String.StringSyntax.
Delimit Scope string_scope with string.

Module Scenario.

Definition names : list String.string :=
  ["iiwa_joint_1"; "iiwa_joint_2"; "iiwa_joint_3"; "iiwa_joint_4";
   "iiwa_joint_5"; "iiwa_joint_6"; "iiwa_joint_7"]%string.

(** A parameter server that answers the model at the third poll, a
    hardware interface with a handle for every joint and a URDF model
    with an effort limit of 176 for every joint. *)
Definition env : InitEnv :=
  mkInitEnv names true true
    [String.EmptyString; String.EmptyString; "<robot/>"%string]
    (fun _ => true) (fun _ => Some 176) (Some Examples.config).

(** The same with a URDF model that does not know the third joint and a
    hardware interface without a handle for the fifth. *)
Definition env_missing : InitEnv :=
  mkInitEnv names true true ["<robot/>"%string]
    (fun name => negb (String.eqb name "iiwa_joint_5"%string))
    (fun name =>
       if String.eqb name "iiwa_joint_3"%string then None else Some 176)
    None.

Definition pds_init : @PassiveDSInit Examples.pds :=
  @Build_PassiveDSInit Examples.pds (fun s => s).

End Scenario.

(* ================================================================== *)
(** * The domain on which the real-number model is the source

    Outside this domain the source computes with NaN, which the reals do
    not have: [R.inverse()] of a singular matrix, the quotients of
    [rotationMatrixToQuaternion] by a pivot that is zero, [std::acos]
    outside [-1, 1], and Eigen operations on vectors of different sizes
    ([j - j0_] with [n_joints_] other than the size of [j0_]).  The
    properties of the cycle that depend on these values are stated on the
    domain only. *)





(** The shapes Eigen's full decomposition of an [n] x 6 matrix [Jt] has:
    [U] is [n] x [n] and [V] has six rows. *)
Definition svd_shape `{JacobiSVD} (n : nat) (Jt : MatrixXd) : Prop :=
  MX.rows (matrixU Jt) = n /\ MX.cols (matrixU Jt) = n /\
  MX.rows (matrixV Jt) = 6%nat.

(** A Jacobian of six rows and [n] columns. *)
Definition jacobian_shape (n : nat) (J : MatrixXd) : Prop :=
  MX.rows J = 6%nat /\ forall i, (i < 6)%nat -> length (nth i J []) = n.


Section Domain.

Context `{PDS : PassiveDSController} `{Tools : IiwaTools} `{SVD : JacobiSVD}.



End Domain.

(* ================================================================== *)
(** * Concrete inputs of a cycle in motion *)

Module Moving.

(** A command that asks for a velocity and for the orientation of the
    unit quaternion (3/5, 4/5, 0, 0). *)
Definition command : list R := [1; 0; 0; 0; 0; 1; 3 / 5; 4 / 5; 0; 0].

(** Seven joints at 1/10 rad moving at 1 rad/s. *)
Definition hw : Hardware := mkHardware (fun _ => 1 / 10) (fun _ => 1).

(** An active seven-joint controller with every gain set and the nullspace
    in use. *)
Definition controller : @DSImpedanceController Examples.pds :=
  @mkController Examples.pds 7 (fun _ => 100) true true 10 2 1 2 3
    j0_constructed command ([5; 6; 6], V3.zero, V3.zero)
    V3.zero Examples.q_identity V3.zero V3.zero Examples.q_identity.

End Moving.

(* ================================================================== *)
(** * Lemmas on comparisons, lists and matrices *)

Lemma Rgtb_true (a b : R) : Rgtb a b = true <-> b < a.
Proof.
  unfold Rgtb. destruct (Rlt_dec b a); split; intros; auto; discriminate.
Qed.

Lemma Rgtb_false (a b : R) : Rgtb a b = false <-> a <= b.
Proof.
  unfold Rgtb. destruct (Rlt_dec b a); split; intros; auto; try discriminate; lra.
Qed.

Lemma Rltb_true (a b : R) : Rltb a b = true <-> a < b.
Proof.
  unfold Rltb. destruct (Rlt_dec a b); split; intros; auto; discriminate.
Qed.

Lemma Rltb_false (a b : R) : Rltb a b = false <-> b <= a.
Proof.
  unfold Rltb. destruct (Rlt_dec a b); split; intros; auto; try discriminate; lra.
Qed.

Lemma nth_build (n : nat) (f : nat -> R) (i : nat) :
  (i < n)%nat -> VX.coeff (VX.build n f) i = f i.
Proof.
  intros Hi. unfold VX.coeff, VX.build.
  rewrite (nth_indep _ 0 (f 0%nat)) by (rewrite length_map, length_seq; exact Hi).
  rewrite map_nth, seq_nth by exact Hi. reflexivity.
Qed.

Lemma length_build (n : nat) (f : nat -> R) : length (VX.build n f) = n.
Proof. unfold VX.build. now rewrite length_map, length_seq. Qed.


Lemma length_update_nth {A : Type} (i : nat) (f : A -> A) (l : list A) :
  length (update_nth i f l) = length l.
Proof.
  revert i. induction l as [|x t IH]; intros [|k]; simpl; auto.
Qed.

Lemma nth_update_nth {A : Type} (i k : nat) (f : A -> A) (l : list A) (d : A) :
  nth k (update_nth i f l) d =
  if Nat.eqb k i && Nat.ltb k (length l) then f (nth k l d) else nth k l d.
Proof.
  revert i k. induction l as [|x t IH]; intros i k.
  - simpl. destruct i, k; simpl; try reflexivity.
    + now rewrite andb_false_r.
  - destruct i as [|i], k as [|k]; simpl; try reflexivity.
    rewrite IH. reflexivity.
Qed.

Lemma hd_update_nth_length (i j : nat) (f : R -> R) (M : MatrixXd) :
  length (hd [] (update_nth i (update_nth j f) M)) = length (hd [] M).
Proof.
  destruct M as [|r t]; destruct i; simpl; auto using length_update_nth.
Qed.

Lemma rows_build (r c : nat) (f : nat -> nat -> R) : MX.rows (MX.build r c f) = r.
Proof. unfold MX.rows, MX.build. now rewrite length_map, length_seq. Qed.

Lemma cols_build (r c : nat) (f : nat -> nat -> R) :
  MX.cols (MX.build r c f) = if Nat.eqb r 0 then 0%nat else c.
Proof.
  unfold MX.cols, MX.build. destruct r as [|r]; simpl; auto.
  now rewrite length_map, length_seq.
Qed.

Lemma row_build (r c : nat) (f : nat -> nat -> R) (i : nat) :
  (i < r)%nat -> nth i (MX.build r c f) [] = map (fun j => f i j) (seq 0 c).
Proof.
  intros Hi. unfold MX.build.
  rewrite (nth_indep _ [] ((fun i => map (fun j => f i j) (seq 0 c)) 0%nat))
    by (rewrite length_map, length_seq; exact Hi).
  rewrite (map_nth (fun i => map (fun j => f i j) (seq 0 c))).
  rewrite seq_nth by exact Hi. reflexivity.
Qed.

Lemma coeff_build (r c : nat) (f : nat -> nat -> R) (i j : nat) :
  (i < r)%nat -> (j < c)%nat -> MX.coeff (MX.build r c f) i j = f i j.
Proof.
  intros Hi Hj. unfold MX.coeff. rewrite row_build by exact Hi.
  apply (nth_build c (f i) j Hj).
Qed.

Lemma matrix_build_ext (r c : nat) (f g : nat -> nat -> R) :
  (forall i j, (i < r)%nat -> (j < c)%nat -> f i j = g i j) ->
  MX.build r c f = MX.build r c g.
Proof.
  intros H. unfold MX.build. apply map_ext_in. intros i Hi.
  apply in_seq in Hi. apply map_ext_in. intros j Hj. apply in_seq in Hj.
  apply H; lia.
Qed.

(* ================================================================== *)
(** * The damped pseudo-inverse *)

Lemma fill_diagonal_succ (lambda_ : R) (sv : VectorXd) (n : nat) (S0 : MatrixXd) :
  fill_diagonal lambda_ sv (S n) S0 =
  MX.set_coeff n n (damped_value lambda_ (VX.coeff sv n))
    (fill_diagonal lambda_ sv n S0).
Proof.
  unfold fill_diagonal. rewrite seq_S, fold_left_app. reflexivity.
Qed.

(** What the loop of lines 19-20 leaves in a zeroed [r] x [c] matrix after
    [n] turns: the shape is kept and the first [n] diagonal places inside
    the matrix carry the damped values. *)
Lemma fill_diagonal_zero (lambda_ : R) (sv : VectorXd) (r c n : nat) :
  length (fill_diagonal lambda_ sv n (MX.Zero r c)) = r /\
  (forall a, (a < r)%nat ->
     length (nth a (fill_diagonal lambda_ sv n (MX.Zero r c)) []) = c) /\
  (forall a b, (a < r)%nat -> (b < c)%nat ->
     MX.coeff (fill_diagonal lambda_ sv n (MX.Zero r c)) a b =
     if Nat.eqb a b && Nat.ltb a n
     then damped_value lambda_ (VX.coeff sv a) else 0).
Proof.
  induction n as [|n [IHlen [IHrow IHcoeff]]].
  - unfold fill_diagonal; simpl. split; [apply rows_build|]. split.
    + intros a Ha. unfold MX.Zero. rewrite row_build by exact Ha.
      now rewrite length_map, length_seq.
    + intros a b Ha Hb. unfold MX.Zero. rewrite coeff_build by assumption.
      now rewrite andb_false_r.
  - rewrite fill_diagonal_succ. unfold MX.set_coeff.
    set (S1 := fill_diagonal lambda_ sv n (MX.Zero r c)) in *.
    split; [now rewrite length_update_nth|]. split.
    + intros a Ha. rewrite nth_update_nth.
      destruct (Nat.eqb a n && Nat.ltb a (length S1)).
      * rewrite length_update_nth. now apply IHrow.
      * now apply IHrow.
    + intros a b Ha Hb. unfold MX.coeff. rewrite nth_update_nth.
      specialize (IHcoeff a b Ha Hb). unfold MX.coeff in IHcoeff.
      rewrite IHlen.
      destruct (Nat.eqb_spec a n) as [->|Hne]; simpl.
      * assert (Hlt : Nat.ltb n r = true) by (apply Nat.ltb_lt; exact Ha).
        rewrite Hlt. rewrite nth_update_nth, (IHrow n Ha), IHcoeff.
        assert (Hb' : Nat.ltb b c = true) by (apply Nat.ltb_lt; exact Hb).
        rewrite Hb', andb_true_r, Nat.ltb_irrefl, andb_false_r.
        rewrite (Nat.eqb_sym n b).
        destruct (Nat.eqb_spec b n) as [->|Hbn]; simpl.
        -- assert (Hs : Nat.ltb n (S n) = true) by (apply Nat.ltb_lt; lia).
           now rewrite Hs.
        -- reflexivity.
      * rewrite IHcoeff.
        destruct (Nat.eqb a b); simpl; [|reflexivity].
        destruct (Nat.ltb_spec a n), (Nat.ltb_spec a (S n)); try reflexivity; lia.
Qed.

Lemma rows_fill_diagonal (lambda_ : R) (sv : VectorXd) (n : nat) (S0 : MatrixXd) :
  MX.rows (fill_diagonal lambda_ sv n S0) = MX.rows S0.
Proof.
  induction n as [|n IH]; [reflexivity|].
  rewrite fill_diagonal_succ. unfold MX.rows, MX.set_coeff in *.
  now rewrite length_update_nth.
Qed.

Lemma cols_fill_diagonal (lambda_ : R) (sv : VectorXd) (n : nat) (S0 : MatrixXd) :
  MX.cols (fill_diagonal lambda_ sv n S0) = MX.cols S0.
Proof.
  induction n as [|n IH]; [reflexivity|].
  rewrite fill_diagonal_succ. unfold MX.cols, MX.set_coeff in *.
  now rewrite hd_update_nth_length.
Qed.

Lemma cols_Zero_of (M : MatrixXd) :
  MX.cols (MX.Zero (MX.rows M) (MX.cols M)) = MX.cols M.
Proof.
  unfold MX.Zero. rewrite cols_build.
  destruct M as [|r t]; reflexivity.
Qed.

(** The transposed loop result is the diagonal matrix of the damped
    singular values. *)
Lemma transpose_fill_diagonal (M : MatrixXd) (lambda_ : R) (sv : VectorXd) :
  MX.transpose (fill_diagonal lambda_ sv (length sv) (MX.Zero (MX.rows M) (MX.cols M))) =
  MX.diagonal (MX.cols M) (MX.rows M) (map (damped_value lambda_) sv).
Proof.
  unfold MX.transpose, MX.diagonal.
  rewrite cols_fill_diagonal, rows_fill_diagonal, cols_Zero_of.
  unfold MX.Zero at 1. rewrite rows_build.
  apply matrix_build_ext. intros i j Hi Hj.
  destruct (fill_diagonal_zero lambda_ sv (MX.rows M) (MX.cols M) (length sv))
    as [_ [_ Hcoeff]].
  rewrite (Hcoeff j i Hj Hi). rewrite (Nat.eqb_sym j i).
  destruct (Nat.eqb_spec i j) as [->|Hne]; simpl; [|reflexivity].
  destruct (Nat.ltb_spec j (length sv)) as [Hlt|Hge].
  - unfold VX.coeff.
    rewrite (nth_indep (map _ sv) 0 (damped_value lambda_ 0))
      by (rewrite length_map; exact Hlt).
    now rewrite map_nth.
  - rewrite nth_overflow by (rewrite length_map; exact Hge). reflexivity.
Qed.

(** C4. For every matrix [M], with [U], [sigma] and [V] the factors and the
    singular values its decomposition answers, [pseudo_inverse M damped] is
    [V * Sigma_damped * U^t], where [Sigma_damped] is the diagonal matrix
    whose i-th entry is [sigma_i / (sigma_i^2 + lambda^2)], [lambda] being
    0.2 when [damped] holds and 0 otherwise. *)
Theorem pseudo_inverse_is_V_Sigma_Ut `{JacobiSVD} (M : MatrixXd) (damped : bool) :
  pseudo_inverse M damped =
  MX.mul
    (MX.mul (matrixV M)
       (Spec.Sigma_damped (MX.rows M) (MX.cols M) damped (singularValues M)))
    (MX.transpose (matrixU M)).
Proof.
  unfold pseudo_inverse, Spec.Sigma_damped.
  rewrite transpose_fill_diagonal. reflexivity.
Qed.

(** C10. With [damped = true] every divisor [sigma_i^2 + lambda^2] of
    line 20 is at least [lambda^2 = 0.04], hence positive and not zero,
    whatever the matrix and its singular values, a zero singular value
    included, whose damped value is then 0. *)
Theorem damped_divisor_bounded_below `{JacobiSVD} (M : MatrixXd) (i : nat) :
  let lambda_ := damping true in
  let sigma := VX.coeff (singularValues M) i in
  lambda_ * lambda_ = 4 / 100 /\
  4 / 100 <= divisor lambda_ sigma /\
  0 < divisor lambda_ sigma /\
  divisor lambda_ sigma <> 0 /\
  damped_value lambda_ sigma * divisor lambda_ sigma = sigma /\
  damped_value lambda_ 0 = 0.
Proof.
  intros lambda_ sigma. unfold lambda_, damping, divisor, damped_value, divisor.
  assert (Hsq : 0 <= sigma * sigma) by nra.
  repeat split; try lra; field; lra.
Qed.

(* ================================================================== *)
(** * Rotation algebra *)

Lemma trace_sum (Rm : Matrix3d) :
  trace0 Rm + trace1 Rm + trace2 Rm + trace3 Rm = 0.
Proof. unfold trace0, trace1, trace2, trace3. lra. Qed.

(** The cofactor formula is an inverse wherever the determinant is not
    zero. *)
Lemma M3_mul_inverse (a : Matrix3d) :
  M3.det a <> 0 -> M3.mul a (M3.inverse a) = M3.identity.
Proof.
  intros Hdet. unfold M3.mul, M3.inverse, M3.identity.
  cbn [m00 m01 m02 m10 m11 m12 m20 m21 m22].
  unfold M3.det in *. f_equal; field; exact Hdet.
Qed.

(** The closed-form expansion of a unit quaternion is a rotation matrix. *)
Lemma quaternionToRotationMatrix_rotation (q : Vector4d) :
  v4_0 q * v4_0 q + v4_1 q * v4_1 q + v4_2 q * v4_2 q + v4_3 q * v4_3 q = 1 ->
  is_rotation (quaternionToRotationMatrix q).
Proof.
  destruct q as [a b c d]. cbn [v4_0 v4_1 v4_2 v4_3]. intros Hunit.
  assert (Hsq : (a * a + b * b + c * c + d * d) * (a * a + b * b + c * c + d * d) = 1)
    by (rewrite Hunit; ring).
  assert (Hcube : (a * a + b * b + c * c + d * d) * (a * a + b * b + c * c + d * d)
                  * (a * a + b * b + c * c + d * d) = 1)
    by (rewrite Hunit; ring).
  unfold is_rotation, M3.det, quaternionToRotationMatrix.
  cbn [v4_0 v4_1 v4_2 v4_3 m00 m01 m02 m10 m11 m12 m20 m21 m22].
  repeat split.
  - rewrite <- Hsq. ring.
  - rewrite <- Hsq. ring.
  - rewrite <- Hsq. ring.
  - ring.
  - ring.
  - ring.
  - rewrite <- Hcube. ring.
Qed.

(** The chain of conditions, one lemma per arm. *)
Lemma selected_branch_W (Rm : Matrix3d) :
  0 < trace0 Rm -> selected_branch Rm = BranchW.
Proof.
  intros H. unfold selected_branch.
  now rewrite (proj2 (Rgtb_true (trace0 Rm) 0) H).
Qed.

Lemma selected_branch_X (Rm : Matrix3d) :
  trace0 Rm <= 0 -> trace2 Rm < trace1 Rm -> trace3 Rm < trace1 Rm ->
  selected_branch Rm = BranchX.
Proof.
  intros H0 H2 H3. unfold selected_branch.
  rewrite (proj2 (Rgtb_false (trace0 Rm) 0) H0).
  now rewrite (proj2 (Rgtb_true _ _) H2), (proj2 (Rgtb_true _ _) H3).
Qed.

Lemma selected_branch_Y (Rm : Matrix3d) :
  trace0 Rm <= 0 -> trace1 Rm < trace2 Rm -> trace3 Rm < trace2 Rm ->
  selected_branch Rm = BranchY.
Proof.
  intros H0 H1 H3. unfold selected_branch.
  rewrite (proj2 (Rgtb_false (trace0 Rm) 0) H0).
  rewrite (proj2 (Rgtb_false (trace1 Rm) (trace2 Rm))) by lra.
  now rewrite (proj2 (Rgtb_true _ _) H1), (proj2 (Rgtb_true _ _) H3).
Qed.

Lemma selected_branch_Z (Rm : Matrix3d) :
  trace0 Rm <= 0 -> trace1 Rm < trace3 Rm -> trace2 Rm < trace3 Rm ->
  selected_branch Rm = BranchZ.
Proof.
  intros H0 H1 H2. unfold selected_branch.
  rewrite (proj2 (Rgtb_false (trace0 Rm) 0) H0).
  rewrite (proj2 (Rgtb_false (trace1 Rm) (trace3 Rm))) by lra.
  rewrite (proj2 (Rgtb_false (trace2 Rm) (trace3 Rm))) by lra.
  now rewrite !andb_false_r.
Qed.

Lemma R_x_of_q_x : quaternionToRotationMatrix Examples.q_x = Examples.R_x.
Proof.
  unfold quaternionToRotationMatrix, Examples.q_x, Examples.R_x; simpl.
  f_equal; lra.
Qed.

Lemma R_x_is_rotation : is_rotation Examples.R_x.
Proof.
  unfold is_rotation, M3.det, Examples.R_x; simpl. repeat split; lra.
Qed.

(** C5, the claim refuted.  [R_x] is a rotation matrix whose trace, 11/25,
    is positive, so the chain takes its first arm and computes [w] first;
    yet [trace1 = 39/25] is the largest of the four quantities. *)
Lemma selected_branch_not_largest :
  is_rotation Examples.R_x /\
  selected_branch Examples.R_x = BranchW /\
  (branch_trace (selected_branch Examples.R_x) Examples.R_x
   < branch_trace BranchX Examples.R_x) /\
  ~ (forall Rm, is_rotation Rm ->
       forall b, branch_trace b Rm <= branch_trace (selected_branch Rm) Rm).
Proof.
  assert (HW : selected_branch Examples.R_x = BranchW).
  { apply selected_branch_W. unfold trace0, Examples.R_x; simpl. lra. }
  assert (Hlt : branch_trace (selected_branch Examples.R_x) Examples.R_x
                < branch_trace BranchX Examples.R_x).
  { rewrite HW. unfold branch_trace, trace0, trace1, Examples.R_x; simpl. lra. }
  repeat split; try apply R_x_is_rotation; auto.
  intros Hall. specialize (Hall Examples.R_x R_x_is_rotation BranchX). lra.
Qed.

(** C5, as the code has it.  For every 3x3 matrix, a rotation or not: when
    [tr] is positive the arm that computes [w] first runs, whether or not
    [tr] is the largest quantity; when [tr] is not positive and one of
    [tr1], [tr2], [tr3] strictly exceeds the two others, the arm of that
    one runs and its quantity is the largest of the four. *)
Theorem selected_branch_by_trace (Rm : Matrix3d) :
  (0 < trace0 Rm -> selected_branch Rm = BranchW) /\
  (trace0 Rm <= 0 ->
   forall b, b <> BranchW ->
     (forall b', b' <> BranchW -> b' <> b ->
        branch_trace b' Rm < branch_trace b Rm) ->
     selected_branch Rm = b /\
     forall b', branch_trace b' Rm <= branch_trace b Rm).
Proof.
  split; [apply selected_branch_W|].
  intros H0 b Hb Hmax.
  pose proof (trace_sum Rm) as Hsum.
  destruct b; [contradiction| | |].
  - pose proof (Hmax BranchY ltac:(discriminate) ltac:(discriminate)) as H2.
    pose proof (Hmax BranchZ ltac:(discriminate) ltac:(discriminate)) as H3.
    simpl in H2, H3. split; [now apply selected_branch_X|].
    intros []; simpl; lra.
  - pose proof (Hmax BranchX ltac:(discriminate) ltac:(discriminate)) as H1.
    pose proof (Hmax BranchZ ltac:(discriminate) ltac:(discriminate)) as H3.
    simpl in H1, H3. split; [now apply selected_branch_Y|].
    intros []; simpl; lra.
  - pose proof (Hmax BranchX ltac:(discriminate) ltac:(discriminate)) as H1.
    pose proof (Hmax BranchY ltac:(discriminate) ltac:(discriminate)) as H2.
    simpl in H1, H2. split; [now apply selected_branch_Z|].
    intros []; simpl; lra.
Qed.

(** The theorem at [R_x], whose trace is positive, and at the half turn
    about the x axis, whose trace is -1 and whose [trace1] is 3. *)
Lemma selected_branch_by_trace_witness :
  selected_branch Examples.R_x = BranchW /\
  selected_branch (quaternionToRotationMatrix Examples.q_half_turn) = BranchX.
Proof.
  split.
  - apply (proj1 (selected_branch_by_trace Examples.R_x)).
    unfold trace0, Examples.R_x; simpl. lra.
  - apply (proj2 (selected_branch_by_trace
                    (quaternionToRotationMatrix Examples.q_half_turn))).
    + unfold trace0, quaternionToRotationMatrix, Examples.q_half_turn; simpl. lra.
    + discriminate.
    + intros b' Hw Hx.
      destruct b'; try contradiction;
        unfold branch_trace, trace1, trace2, trace3,
          quaternionToRotationMatrix, Examples.q_half_turn; simpl; lra.
Defined.

(** A tie between [trace1] and [trace2] below a non-positive trace falls
    through to the last arm: at the half turn about the diagonal of the
    x-y plane that arm takes the square root of [1 + trace3 = 0]. *)
Lemma selected_branch_tie :
  let Rm := mkMatrix3d 0 1 0 1 0 0 0 0 (- 1) in
  is_rotation Rm /\ selected_branch Rm = BranchZ /\
  trace3 Rm < trace1 Rm /\ 1 + trace3 Rm = 0.
Proof.
  simpl. repeat split; unfold M3.det, trace1, trace3; simpl; try lra.
  unfold selected_branch, trace0, trace1, trace2, trace3; simpl.
  rewrite (proj2 (Rgtb_false _ _)) by lra.
  rewrite (proj2 (Rgtb_false (0 - 0 - - 1) _)) by lra.
  rewrite (proj2 (Rgtb_false (- 0 + 0 - - 1) _)) by lra.
  reflexivity.
Qed.

Lemma norm_segment_identity : V3.norm (segment_1_3 Examples.q_identity) = 0.
Proof.
  unfold V3.norm, segment_1_3, Examples.q_identity; simpl.
  replace (0 * 0 + 0 * 0 + 0 * 0) with 0 by lra. apply sqrt_0.
Qed.

Lemma norm_segment_half_turn : V3.norm (segment_1_3 Examples.q_half_turn) = 1.
Proof.
  unfold V3.norm, segment_1_3, Examples.q_half_turn; simpl.
  replace (1 * 1 + 0 * 0 + 0 * 0) with 1 by lra. apply sqrt_1.
Qed.

(** C9. For every quaternion [q], [quaternionToAxisAngle q] answers the
    angle [2 * acos (q.w)]; the axis is the vector part divided by its norm
    when that norm is at least 1e-3 and the vector part itself when the
    norm is below 1e-3; at [q = (1,0,0,0)] the angle is 0 and the axis is
    the zero vector, the division not being evaluated. *)
Theorem quaternionToAxisAngle_cases (q : Vector4d) :
  snd (quaternionToAxisAngle q) = 2 * acos (v4_0 q) /\
  (1 / 1000 <= V3.norm (segment_1_3 q) ->
   fst (quaternionToAxisAngle q)
   = V3.div (segment_1_3 q) (V3.norm (segment_1_3 q))) /\
  (V3.norm (segment_1_3 q) < 1 / 1000 ->
   fst (quaternionToAxisAngle q) = segment_1_3 q) /\
  quaternionToAxisAngle (mkVector4d 1 0 0 0) = (V3.zero, 0).
Proof.
  unfold quaternionToAxisAngle; simpl. repeat split.
  - intros Hge. now rewrite (proj2 (Rltb_false _ _) Hge).
  - intros Hlt. now rewrite (proj2 (Rltb_true _ _) Hlt).
  - fold Examples.q_identity. rewrite norm_segment_identity.
    rewrite (proj2 (Rltb_true 0 (1 / 1000))) by lra.
    rewrite acos_1. unfold segment_1_3, V3.zero; simpl.
    f_equal. lra.
Qed.

(** The theorem at the half turn about the x axis, whose vector part has
    norm 1, and at the identity, whose vector part has norm 0. *)
Lemma quaternionToAxisAngle_cases_witness :
  fst (quaternionToAxisAngle Examples.q_half_turn)
  = V3.div (segment_1_3 Examples.q_half_turn)
           (V3.norm (segment_1_3 Examples.q_half_turn)) /\
  fst (quaternionToAxisAngle Examples.q_identity)
  = segment_1_3 Examples.q_identity.
Proof.
  split.
  - apply (proj1 (proj2 (quaternionToAxisAngle_cases Examples.q_half_turn))).
    rewrite norm_segment_half_turn. lra.
  - apply (proj1 (proj2 (proj2 (quaternionToAxisAngle_cases Examples.q_identity)))).
    rewrite norm_segment_identity. lra.
Defined.

(* ================================================================== *)
(** * The control cycle *)

Lemma set_commands_app (a b : list Call) :
  set_commands (a ++ b) = set_commands a ++ set_commands b.
Proof. unfold set_commands. apply flat_map_app. Qed.

Lemma set_commands_read_joints (n : nat) : set_commands (read_joints n) = [].
Proof.
  unfold set_commands, read_joints. generalize 0%nat.
  induction n as [|n IH]; intros s; simpl; auto.
Qed.

Lemma set_commands_map (u : nat -> R) (l : list nat) :
  set_commands (map (fun i => CallSetCommand i (u i)) l)
  = map (fun i => (i, u i)) l.
Proof.
  unfold set_commands. induction l as [|i l IH]; simpl; [reflexivity|].
  now rewrite IH.
Qed.

Lemma wrench_assembled (Frot Flin : Vector3d) :
  VX.set_segment3 0 Frot (VX.set_segment3 3 Flin (repeat 0 6%nat))
  = Spec.wrench Frot Flin.
Proof. reflexivity. Qed.

Section Cycle.

Context `{PDS : PassiveDSController} `{Tools : IiwaTools} `{SVD : JacobiSVD}.

Variable c : DSImpedanceController.
Variable hw : Hardware.

(** The ten values of the command, named as the specification orders
    them, and whatever follows them in the buffer. *)
Variables vx vy vz wx wy wz qw qx qy qz : R.
Variable rest : list R.

Let n := n_joints_ c.
Let rs := robot_state_of n hw.
Let J := jacobian rs.
Let q := orientation (perform_fk rs).
Let twist := MX.mul_vec J (velocity rs).
Let omega := VX.segment3 0 twist.
Let v := VX.segment3 3 twist.
Let vd := mkVector3d vx vy vz.
Let omegad := mkVector3d wx wy wz.
Let qd := mkVector4d qw qx qy qz.
Let pds' := Update v (SetInput vd (passive_ds_ c)).

(** One run of the active branch on a buffer of at least ten values:
    it ends, and its locals are those of the listing. *)
Lemma update_active_run :
  commands_buffer_ c
    = vx :: vy :: vz :: wx :: wy :: wz :: qw :: qx :: qy :: qz :: rest ->
  exists c' l calls,
    update_active c hw = Some (c', l, calls) /\
    passive_ds_ c' = pds' /\
    l_jac l = J /\ l_omega l = omega /\ l_v l = v /\
    l_Flin l = GetOutput_force pds' /\
    l_Re l = M3.mul (quaternionToRotationMatrix qd)
                    (M3.inverse (quaternionToRotationMatrix q)) /\
    l_axis l = fst (quaternionToAxisAngle (rotationMatrixToQuaternion (l_Re l))) /\
    l_angle l = 2 * acos (v4_0 (rotationMatrixToQuaternion (l_Re l))) /\
    l_Frot l = V3.add (V3.scale (rotationalStiffness_ c * l_angle l) (l_axis l))
                      (V3.scale (rotationalDamping_ c) (V3.sub omegad omega)) /\
    l_wrench l = Spec.wrench (l_Frot l) (l_Flin l) /\
    l_primary l = MX.mul_vec (MX.transpose J) (l_wrench l) /\
    l_N l = MX.sub (MX.Identity n n)
              (MX.mul (MX.transpose J) (pseudo_inverse (MX.transpose J) true)) /\
    l_nullspaceTorques l =
      MX.mul_vec (l_N l)
        (VX.sub
           (VX.sub (VX.scale (- jointLimitsGain_ c) (position rs))
                   (VX.scale (desiredJointsGain_ c)
                      (VX.sub (position rs) (j0_ c))))
           (VX.scale (jointVelocitiesGain_ c) (velocity rs))) /\
    l_torques l =
      (if useNullSpace_ c
       then VX.add (l_primary l) (l_nullspaceTorques l)
       else l_primary l) /\
    l_commanded_effort l =
      VX.build n (fun i => enforceJointLimits c (VX.coeff (l_torques l) i) i) /\
    set_commands calls =
      map (fun i => (i, VX.coeff (l_commanded_effort l) i)) (seq 0 n).
Proof.
  intros Hbuf. unfold update_active. rewrite Hbuf. cbn [read_commands].
  do 3 eexists. split; [reflexivity|].
  cbn [passive_ds_ l_jac l_omega l_v l_Flin l_Re l_axis l_angle l_Frot
       l_wrench l_primary l_N l_nullspaceTorques l_torques
       l_commanded_effort].
  repeat (split; [reflexivity|]).
  rewrite !set_commands_app, !set_commands_read_joints.
  cbn [set_commands flat_map app].
  apply (set_commands_map _ (seq 0 (n_joints_ c))).
Qed.

Lemma update_of_update_active c' l calls :
  firstCommand_ c = true ->
  update_active c hw = Some (c', l, calls) ->
  update c hw = Some (c', calls).
Proof.
  intros Hfirst Hrun. unfold update. now rewrite Hfirst, Hrun.
Qed.

(** The three cases of [enforceJointLimits] for a limit that is not
    negative, and the bound they give. *)
Lemma enforceJointLimits_cases (t : R) (i : nat) :
  0 <= joint_urdfs_ c i ->
  (joint_urdfs_ c i < t -> enforceJointLimits c t i = joint_urdfs_ c i) /\
  (t < - joint_urdfs_ c i -> enforceJointLimits c t i = - joint_urdfs_ c i) /\
  (- joint_urdfs_ c i <= t <= joint_urdfs_ c i -> enforceJointLimits c t i = t) /\
  - joint_urdfs_ c i <= enforceJointLimits c t i <= joint_urdfs_ c i.
Proof.
  intros Hlimit. unfold enforceJointLimits.
  destruct (Rlt_dec (joint_urdfs_ c i) t) as [Hhigh|Hhigh].
  - rewrite (proj2 (Rgtb_true _ _) Hhigh). repeat split; intros; lra.
  - rewrite (proj2 (Rgtb_false t (joint_urdfs_ c i))) by lra.
    destruct (Rlt_dec t (- joint_urdfs_ c i)) as [Hlow|Hlow].
    + rewrite (proj2 (Rltb_true _ _) Hlow). repeat split; intros; lra.
    + rewrite (proj2 (Rltb_false t (- joint_urdfs_ c i))) by lra.
      repeat split; intros; lra.
Qed.

(** C7. For every joint [i] whose effort limit is not negative and every
    torque [t], [enforceJointLimits] answers the limit when [t] exceeds
    it, the negated limit when [t] is below the negated limit and [t]
    itself otherwise, hence never a value out of range; and an active
    cycle hands to joint [i] exactly [enforceJointLimits] of the [i]-th
    computed torque. *)
Theorem commanded_effort_is_clamped :
  (forall t i, 0 <= joint_urdfs_ c i ->
     (joint_urdfs_ c i < t -> enforceJointLimits c t i = joint_urdfs_ c i) /\
     (t < - joint_urdfs_ c i -> enforceJointLimits c t i = - joint_urdfs_ c i) /\
     (- joint_urdfs_ c i <= t <= joint_urdfs_ c i -> enforceJointLimits c t i = t) /\
     - joint_urdfs_ c i <= enforceJointLimits c t i <= joint_urdfs_ c i) /\
  (firstCommand_ c = true ->
   commands_buffer_ c
     = vx :: vy :: vz :: wx :: wy :: wz :: qw :: qx :: qy :: qz :: rest ->
   exists c' l calls,
     update c hw = Some (c', calls) /\
     update_active c hw = Some (c', l, calls) /\
     set_commands calls =
       map (fun i => (i, enforceJointLimits c (VX.coeff (l_torques l) i) i))
           (seq 0 n)).
Proof.
  split.
  - intros t i Hlimit. now apply enforceJointLimits_cases.
  - intros Hfirst Hbuf.
    destruct (update_active_run Hbuf)
      as (c' & l & calls & Hrun & _ & _ & _ & _ & _ & _ & _ & _ & _ & _ & _
          & _ & _ & _ & Heffort & Hcalls).
    exists c', l, calls.
    split; [now apply update_of_update_active with l|].
    split; [exact Hrun|].
    rewrite Hcalls. apply map_ext_in. intros i Hi. apply in_seq in Hi.
    rewrite Heffort, nth_build by (fold n; lia). reflexivity.
Qed.

(** C8. When no command has been accepted, a cycle leaves the controller
    as it was and makes exactly one call per joint, [setCommand(0.)] on
    joints [0] to [n-1] in turn: no call reads the joints, none reaches
    the kinematics, the Jacobi decomposition or the velocity-tracking
    primitive, and the readings of the hardware do not matter. *)
Theorem idle_cycle_commands_zero :
  firstCommand_ c = false ->
  update c hw = Some (c, map (fun i => CallSetCommand i 0) (seq 0 n)) /\
  (forall calls, update c hw = Some (c, calls) ->
     length calls = n /\
     set_commands calls = map (fun i => (i, 0)) (seq 0 n) /\
     forall call, In call calls ->
       exists i, (i < n)%nat /\ call = CallSetCommand i 0) /\
  forall hw', update c hw' = update c hw.
Proof.
  intros Hidle. unfold update. rewrite Hidle. split; [reflexivity|]. split.
  - intros calls Hcalls. injection Hcalls as <-.
    split; [now rewrite length_map, length_seq|].
    split; [apply (set_commands_map (fun _ => 0))|].
    intros call Hin. apply in_map_iff in Hin as (i & <- & Hi).
    apply in_seq in Hi. exists i. split; [lia|reflexivity].
  - reflexivity.
Qed.

End Cycle.

(* ================================================================== *)
(** * Commands and reconfiguration *)

Section Callbacks.

Context `{PDS : PassiveDSController} `{Tools : IiwaTools} `{SVD : JacobiSVD}.

Variable c : DSImpedanceController.

(** The guard of line 343 lets a message through when its size is the
    number of joints or ten. *)
Lemma commandCB_accepted (data : list R) :
  length data = n_joints_ c \/ length data = 10%nat ->
  snd (commandCB c data) = [] /\
  commands_buffer_ (fst (commandCB c data)) = data /\
  firstCommand_ (fst (commandCB c data)) = true.
Proof.
  intros Hsize. unfold commandCB.
  assert (Hguard : negb (Nat.eqb (length data) (n_joints_ c))
                   && negb (Nat.eqb (length data) 10) = false).
  { destruct Hsize as [-> | ->].
    - now rewrite Nat.eqb_refl.
    - rewrite Nat.eqb_refl. apply andb_false_r. }
  rewrite Hguard. cbn [fst snd commands_buffer_ firstCommand_].
  repeat split. now destruct (firstCommand_ c).
Qed.

Lemma commandCB_rejected (data : list R) :
  length data <> n_joints_ c -> length data <> 10%nat ->
  commandCB c data = (c, [CallRosError (length data)]).
Proof.
  intros Hn H10. unfold commandCB.
  apply Nat.eqb_neq in Hn, H10. now rewrite Hn, H10.
Qed.

(** A message of ten values is always accepted; later ones keep the
    controller active. *)
Lemma commandCB_ten_values (data : list R) :
  length data = 10%nat ->
  commands_buffer_ (fst (commandCB c data)) = data /\
  firstCommand_ (fst (commandCB c data)) = true /\
  firstCommand_ (fst (commandCB (fst (commandCB c data)) data)) = true.
Proof.
  intros Hsize.
  destruct (commandCB_accepted data (or_intror Hsize)) as (_ & Hbuf & Hfirst).
  repeat split; auto.
  unfold commandCB at 1.
  destruct (negb _ && negb _); cbn [fst firstCommand_]; [exact Hfirst|].
  now rewrite Hfirst.
Qed.

Lemma eigvals_vec_eq (config : Config) :
  eigvals_vec config = [gain0 config; gain1 config; gain1 config].
Proof. reflexivity. Qed.

Variable config : Config.
Variable hw : Hardware.
Variables vx vy vz wx wy wz qw qx qy qz : R.
Variable rest : list R.

(** C6, as the code has it.  The callback stores the five gains and the
    nullspace switch of the configuration as they are, and hands to the
    velocity-tracking primitive the dimension 3 and the eigenvalues
    [gain0, gain1, gain1]: the first is set on its own, the second and
    the third are always the same value.  The command buffer and the
    Idle/Active latch are not touched, and the very next active cycle
    computes with the new values. *)
Theorem reconfigure_forwards_gains :
  let c1 := fst (dynamicReconfigureCallback c config) in
  (rotationalStiffness_ c1 = rotationalStiffness config /\
   rotationalDamping_ c1 = rotationalDamping config /\
   jointLimitsGain_ c1 = jointLimitsGain config /\
   desiredJointsGain_ c1 = desiredJointsGain config /\
   jointVelocitiesGain_ c1 = jointVelocitiesGain config /\
   useNullSpace_ c1 = useNullSpace config) /\
  passive_ds_ c1
    = SetParams 3 [gain0 config; gain1 config; gain1 config] (passive_ds_ c) /\
  snd (dynamicReconfigureCallback c config)
    = [CallSetParams 3 [gain0 config; gain1 config; gain1 config]] /\
  (commands_buffer_ c1 = commands_buffer_ c /\
   firstCommand_ c1 = firstCommand_ c /\
   n_joints_ c1 = n_joints_ c /\ j0_ c1 = j0_ c) /\
  (firstCommand_ c = true ->
   commands_buffer_ c
     = vx :: vy :: vz :: wx :: wy :: wz :: qw :: qx :: qy :: qz :: rest ->
   exists c' l calls,
     update c1 hw = Some (c', calls) /\
     update_active c1 hw = Some (c', l, calls) /\
     l_Flin l =
       GetOutput_force
         (Update (l_v l)
            (SetInput (mkVector3d vx vy vz)
               (SetParams 3 [gain0 config; gain1 config; gain1 config]
                  (passive_ds_ c)))) /\
     l_Frot l =
       V3.add (V3.scale (rotationalStiffness config * l_angle l) (l_axis l))
              (V3.scale (rotationalDamping config)
                 (V3.sub (mkVector3d wx wy wz) (l_omega l))) /\
     l_nullspaceTorques l =
       MX.mul_vec (l_N l)
         (Spec.secondary_objective (jointLimitsGain config)
            (desiredJointsGain config) (jointVelocitiesGain config)
            (VX.build (n_joints_ c) (getPosition hw)) (j0_ c)
            (VX.build (n_joints_ c) (getVelocity hw))) /\
     l_torques l =
       (if useNullSpace config
        then VX.add (l_primary l) (l_nullspaceTorques l)
        else l_primary l)).
Proof.
  cbn zeta. unfold dynamicReconfigureCallback.
  cbn [fst snd rotationalStiffness_ rotationalDamping_ jointLimitsGain_
       desiredJointsGain_ jointVelocitiesGain_ useNullSpace_ passive_ds_
       commands_buffer_ firstCommand_ n_joints_ j0_].
  split; [repeat split|]. split; [reflexivity|]. split; [reflexivity|].
  split; [repeat split|].
  intros Hfirst Hbuf.
  match goal with
  | |- exists c' l calls, update ?c1 hw = _ /\ _ =>
      destruct (@update_active_run _ _ _ c1 hw vx vy vz wx wy wz qw qx qy qz
                  rest Hbuf)
        as (c' & l & calls & Hrun & _ & _ & Homega & Hv & HFlin & _ & _ & _
            & HFrot & _ & _ & _ & Hnull & Htorques & _);
      exists c', l, calls;
      split; [exact (@update_of_update_active _ _ _ c1 hw c' l calls Hfirst Hrun)|]
  end.
  split; [exact Hrun|].
  split; [rewrite HFlin, Hv; reflexivity|].
  split; [rewrite HFrot, Homega; reflexivity|].
  split; [exact Hnull|exact Htorques].
Qed.

End Callbacks.

(** C6, the claim refuted.  Whatever the configuration, the vector handed
    to the velocity-tracking primitive repeats [gain1]: the eigenvalues
    1, 2, 3 cannot be configured, so the three are not set independently. *)
Lemma eigenvalues_not_independent :
  (forall config, eigvals_vec config <> [1; 2; 3]) /\
  (forall config,
     snd (@dynamicReconfigureCallback Examples.pds Examples.idle config)
     <> [CallSetParams 3 [1; 2; 3]]) /\
  ~ (forall e0 e1 e2, exists config, eigvals_vec config = [e0; e1; e2]).
Proof.
  assert (Hno : forall config, eigvals_vec config <> [1; 2; 3]).
  { intros config Heq. rewrite eigvals_vec_eq in Heq.
    injection Heq as _ H2 H3. lra. }
  split; [exact Hno|]. split.
  - intros config Heq. unfold dynamicReconfigureCallback in Heq.
    cbn [snd] in Heq. rewrite eigvals_vec_eq in Heq.
    injection Heq as _ H2 H3. lra.
  - intros Hall. destruct (Hall 1 2 3) as [config Heq].
    exact (Hno config Heq).
Qed.

(** C1, the code at a message of seven values on a seven-joint controller
    in which no command has arrived.  The size is not ten, yet the guard
    lets it through because it is the number of joints: no diagnostic is
    raised, the buffer of ten zeros is overwritten by the seven values and
    the controller becomes active.  The next cycle then reads
    [commands[7]] to [commands[9]] beyond the end of the vector, whatever
    the collaborators. *)
Theorem commandCB_accepts_joint_sized_message :
  length Examples.short_command = 7%nat /\
  length Examples.short_command <> 10%nat /\
  firstCommand_ Examples.idle = false /\
  commands_buffer_ Examples.idle = repeat 0 10%nat /\
  snd (@commandCB Examples.pds Examples.idle Examples.short_command) = [] /\
  commands_buffer_ (fst (@commandCB Examples.pds Examples.idle Examples.short_command))
    = Examples.short_command /\
  firstCommand_ (fst (@commandCB Examples.pds Examples.idle Examples.short_command))
    = true /\
  forall (Tools : IiwaTools) (SVD : JacobiSVD) (hw : Hardware),
    update (fst (@commandCB Examples.pds Examples.idle Examples.short_command)) hw
    = None.
Proof.
  repeat split; try reflexivity.
  simpl. lia.
Qed.

(** A torque of 150 on a joint limited to 100, one of -150, one of 42; and
    the efforts an active cycle hands out. *)
Lemma commanded_effort_is_clamped_witness :
  @enforceJointLimits Examples.pds Examples.active 150 0 = 100 /\
  @enforceJointLimits Examples.pds Examples.active (- 150) 0 = - 100 /\
  @enforceJointLimits Examples.pds Examples.active 42 0 = 42 /\
  exists c' l calls,
    @update_active Examples.pds Examples.tools Examples.svd Examples.active
      Examples.hw = Some (c', l, calls) /\
    set_commands calls =
      map (fun i => (i, @enforceJointLimits Examples.pds Examples.active
                          (VX.coeff (l_torques l) i) i))
          (seq 0 7).
Proof.
  pose proof (@commanded_effort_is_clamped Examples.pds Examples.tools
                Examples.svd Examples.active Examples.hw
                0 0 0 0 0 0 1 0 0 0 []) as [Hcases Hactive].
  assert (Hlimit : 0 <= joint_urdfs_ Examples.active 0) by (simpl; lra).
  split; [apply (proj1 (Hcases 150 0%nat Hlimit)); simpl; lra|].
  split; [apply (proj1 (proj2 (Hcases (- 150) 0%nat Hlimit))); simpl; lra|].
  split; [apply (proj1 (proj2 (proj2 (Hcases 42 0%nat Hlimit)))); simpl; lra|].
  destruct (Hactive eq_refl eq_refl) as (c' & l & calls & _ & Hrun & Hcalls).
  exists c', l, calls. split; assumption.
Defined.

Lemma idle_cycle_commands_zero_witness :
  @update Examples.pds Examples.tools Examples.svd Examples.idle Examples.hw
  = Some (Examples.idle,
          [CallSetCommand 0 0; CallSetCommand 1 0; CallSetCommand 2 0;
           CallSetCommand 3 0; CallSetCommand 4 0; CallSetCommand 5 0;
           CallSetCommand 6 0]).
Proof.
  exact (proj1 (@idle_cycle_commands_zero Examples.pds Examples.tools
                  Examples.svd Examples.idle Examples.hw eq_refl)).
Defined.

(** The callback at the example configuration, followed by a cycle. *)
Lemma reconfigure_forwards_gains_witness :
  rotationalStiffness_
    (fst (@dynamicReconfigureCallback Examples.pds Examples.active Examples.config))
    = 10 /\
  snd (@dynamicReconfigureCallback Examples.pds Examples.active Examples.config)
    = [CallSetParams 3 [5; 6; 6]] /\
  exists c' l calls,
    @update_active Examples.pds Examples.tools Examples.svd
      (fst (@dynamicReconfigureCallback Examples.pds Examples.active Examples.config))
      Examples.hw = Some (c', l, calls) /\
    l_Frot l =
      V3.add (V3.scale (10 * l_angle l) (l_axis l))
             (V3.scale 2 (V3.sub (mkVector3d 0 0 0) (l_omega l))).
Proof.
  pose proof (@reconfigure_forwards_gains Examples.pds Examples.tools
                Examples.svd Examples.active Examples.config Examples.hw
                0 0 0 0 0 0 1 0 0 0 [])
    as ((Hstiff & _) & _ & Hcalls & _ & Hnext).
  split; [exact Hstiff|]. split; [exact Hcalls|].
  destruct (Hnext eq_refl eq_refl) as (c' & l & calls & _ & Hrun & _ & HFrot & _).
  exists c', l, calls. split; assumption.
Defined.

(* ================================================================== *)
(** * Further properties: rotations *)

Ltac m3_crush :=
  unfold M3.mul, M3.inverse, M3.identity, M3_transpose, M3.det in *;
  cbn [m00 m01 m02 m10 m11 m12 m20 m21 m22] in *.

Lemma M3_mul_assoc (a b c : Matrix3d) :
  M3.mul (M3.mul a b) c = M3.mul a (M3.mul b c).
Proof. destruct a, b, c. m3_crush. f_equal; ring. Qed.

Lemma M3_mul_identity_l (a : Matrix3d) : M3.mul M3.identity a = a.
Proof. destruct a. m3_crush. f_equal; ring. Qed.

Lemma M3_mul_identity_r (a : Matrix3d) : M3.mul a M3.identity = a.
Proof. destruct a. m3_crush. f_equal; ring. Qed.

Lemma M3_inverse_mul (a : Matrix3d) :
  M3.det a <> 0 -> M3.mul (M3.inverse a) a = M3.identity.
Proof. intros Hdet. destruct a. m3_crush. f_equal; field; exact Hdet. Qed.

Lemma M3_transpose_mul (a b : Matrix3d) :
  M3_transpose (M3.mul a b) = M3.mul (M3_transpose b) (M3_transpose a).
Proof. destruct a, b. m3_crush. f_equal; ring. Qed.

Lemma M3_transpose_transpose (a : Matrix3d) : M3_transpose (M3_transpose a) = a.
Proof. destruct a. reflexivity. Qed.

Lemma M3_det_mul (a b : Matrix3d) : M3.det (M3.mul a b) = M3.det a * M3.det b.
Proof. destruct a, b. m3_crush. ring. Qed.

Lemma M3_det_transpose (a : Matrix3d) : M3.det (M3_transpose a) = M3.det a.
Proof. destruct a. m3_crush. ring. Qed.

(** Orthonormal rows and determinant one, as one matrix equation. *)
Lemma is_rotation_mul_transpose (Rm : Matrix3d) :
  is_rotation Rm <->
  M3.mul Rm (M3_transpose Rm) = M3.identity /\ M3.det Rm = 1.
Proof.
  destruct Rm as [a b c d e f g h i]. unfold is_rotation. m3_crush. split.
  - intros (H1 & H2 & H3 & H4 & H5 & H6 & H7). split; [|exact H7].
    f_equal; lra.
  - intros [Heq H7]. injection Heq as E1 E2 E3 E4 E5 E6 E7 E8 E9.
    repeat split; lra.
Qed.

Lemma rotation_inverse (Rm : Matrix3d) :
  is_rotation Rm -> M3.inverse Rm = M3_transpose Rm.
Proof.
  intros Hrot. apply is_rotation_mul_transpose in Hrot as [Horth Hdet].
  assert (Hnz : M3.det Rm <> 0) by lra.
  rewrite <- (M3_mul_identity_r (M3.inverse Rm)), <- Horth.
  rewrite <- M3_mul_assoc, (M3_inverse_mul Rm Hnz).
  apply M3_mul_identity_l.
Qed.

Lemma rotation_transpose (Rm : Matrix3d) :
  is_rotation Rm -> is_rotation (M3_transpose Rm).
Proof.
  intros Hrot. pose proof (rotation_inverse Rm Hrot) as Hinv.
  apply is_rotation_mul_transpose in Hrot as [Horth Hdet].
  apply is_rotation_mul_transpose. rewrite M3_transpose_transpose.
  split; [|now rewrite M3_det_transpose].
  rewrite <- Hinv. apply M3_inverse_mul. lra.
Qed.

Lemma rotation_mul (a b : Matrix3d) :
  is_rotation a -> is_rotation b -> is_rotation (M3.mul a b).
Proof.
  intros Ha Hb.
  pose proof (rotation_transpose b Hb) as Hbt.
  apply is_rotation_mul_transpose in Ha as [Ha Hda].
  apply is_rotation_mul_transpose in Hb as [Hb Hdb].
  apply is_rotation_mul_transpose. split.
  - rewrite M3_transpose_mul, M3_mul_assoc.
    rewrite <- (M3_mul_assoc b), Hb, M3_mul_identity_l. exact Ha.
  - rewrite M3_det_mul, Hda, Hdb. ring.
Qed.

Lemma quaternionToRotationMatrix_opp (q : Vector4d) :
  quaternionToRotationMatrix (V4_opp q) = quaternionToRotationMatrix q.
Proof.
  destruct q. unfold quaternionToRotationMatrix, V4_opp.
  cbn [v4_0 v4_1 v4_2 v4_3]. f_equal; ring.
Qed.

Lemma q_x_unit : unit_quaternion Examples.q_x.
Proof. unfold unit_quaternion, Examples.q_x; simpl. lra. Qed.

Lemma q_half_turn_unit : unit_quaternion Examples.q_half_turn.
Proof. unfold unit_quaternion, Examples.q_half_turn; simpl. lra. Qed.

Lemma q_identity_unit : unit_quaternion Examples.q_identity.
Proof. unfold unit_quaternion, Examples.q_identity; simpl. lra. Qed.

(** X1. The matrix [quaternionToRotationMatrix] builds from a quaternion
    of norm one is a rotation: its rows are orthonormal and its
    determinant is one; its [inverse()] is its transpose; and [q] and
    [-q] give the same matrix. *)
Theorem unit_quaternion_gives_rotation (q : Vector4d) :
  unit_quaternion q ->
  is_rotation (quaternionToRotationMatrix q) /\
  M3.inverse (quaternionToRotationMatrix q)
    = M3_transpose (quaternionToRotationMatrix q) /\
  M3.mul (quaternionToRotationMatrix q)
         (M3.inverse (quaternionToRotationMatrix q)) = M3.identity /\
  quaternionToRotationMatrix (V4_opp q) = quaternionToRotationMatrix q.
Proof.
  intros Hunit.
  pose proof (quaternionToRotationMatrix_rotation q Hunit) as Hrot.
  split; [exact Hrot|]. split; [now apply rotation_inverse|].
  split; [|apply quaternionToRotationMatrix_opp].
  apply M3_mul_inverse. destruct Hrot as (_ & _ & _ & _ & _ & _ & Hdet). lra.
Qed.

Lemma unit_quaternion_gives_rotation_witness :
  is_rotation (quaternionToRotationMatrix Examples.q_x).
Proof.
  exact (proj1 (unit_quaternion_gives_rotation Examples.q_x q_x_unit)).
Defined.

(** X2. For a current and a desired quaternion of norm one, the error
    rotation [Re = Rd * R.inverse()] of the cycle is a rotation matrix, it
    is [Rd * R^t], and it is the identity when the two quaternions are
    equal or opposite. *)
Theorem error_rotation_is_rotation (q qd : Vector4d) :
  unit_quaternion q -> unit_quaternion qd ->
  is_rotation (Spec.error_rotation q qd) /\
  Spec.error_rotation q qd
    = M3.mul (quaternionToRotationMatrix qd)
             (M3_transpose (quaternionToRotationMatrix q)) /\
  Spec.error_rotation q q = M3.identity /\
  Spec.error_rotation q (V4_opp q) = M3.identity.
Proof.
  intros Hq Hqd. unfold Spec.error_rotation.
  pose proof (quaternionToRotationMatrix_rotation q Hq) as Hr.
  pose proof (quaternionToRotationMatrix_rotation qd Hqd) as Hrd.
  rewrite (rotation_inverse _ Hr).
  split; [apply rotation_mul; [exact Hrd|now apply rotation_transpose]|].
  split; [reflexivity|].
  rewrite quaternionToRotationMatrix_opp.
  apply is_rotation_mul_transpose in Hr as [Horth _]. now split.
Qed.

Lemma error_rotation_is_rotation_witness :
  is_rotation (Spec.error_rotation Examples.q_x Examples.q_half_turn).
Proof.
  exact (proj1 (error_rotation_is_rotation Examples.q_x Examples.q_half_turn
                  q_x_unit q_half_turn_unit)).
Defined.

(** What the chain has tested when an arm runs. *)
Lemma selected_branch_inv (Rm : Matrix3d) :
  match selected_branch Rm with
  | BranchW => 0 < trace0 Rm
  | BranchX =>
      trace0 Rm <= 0 /\ trace2 Rm < trace1 Rm /\ trace3 Rm < trace1 Rm
  | BranchY =>
      trace0 Rm <= 0 /\ trace1 Rm < trace2 Rm /\ trace3 Rm < trace2 Rm
  | BranchZ =>
      trace0 Rm <= 0 /\
      ~ (trace2 Rm < trace1 Rm /\ trace3 Rm < trace1 Rm) /\
      ~ (trace1 Rm < trace2 Rm /\ trace3 Rm < trace2 Rm)
  end.
Proof.
  unfold selected_branch, Rgtb.
  destruct (Rlt_dec 0 (trace0 Rm)); [assumption|].
  destruct (Rlt_dec (trace2 Rm) (trace1 Rm));
    destruct (Rlt_dec (trace3 Rm) (trace1 Rm));
    destruct (Rlt_dec (trace1 Rm) (trace2 Rm));
    destruct (Rlt_dec (trace3 Rm) (trace2 Rm));
    cbn [andb]; repeat split; try lra; intros [? ?]; lra.
Qed.

(** The four quantities of the matrix of a unit quaternion. *)
Lemma traces_of_unit_quaternion (q : Vector4d) :
  unit_quaternion q ->
  1 + trace0 (quaternionToRotationMatrix q) = 4 * (v4_0 q * v4_0 q) /\
  1 + trace1 (quaternionToRotationMatrix q) = 4 * (v4_1 q * v4_1 q) /\
  1 + trace2 (quaternionToRotationMatrix q) = 4 * (v4_2 q * v4_2 q) /\
  1 + trace3 (quaternionToRotationMatrix q) = 4 * (v4_3 q * v4_3 q).
Proof.
  destruct q as [a b c d]. unfold unit_quaternion, trace0, trace1, trace2,
    trace3, quaternionToRotationMatrix.
  cbn [v4_0 v4_1 v4_2 v4_3 m00 m11 m22]. intros Hunit. repeat split; lra.
Qed.

Lemma pivot_abs (x : R) : sqrt (4 * (x * x)) / 2 = Rabs x.
Proof.
  replace (4 * (x * x)) with (Rsqr (2 * x)) by (unfold Rsqr; ring).
  rewrite sqrt_Rsqr_abs, Rabs_mult, (Rabs_pos_eq 2) by lra. lra.
Qed.





(** X4. On a quaternion of norm one with [|q.w| <= 1/2], [q.z = 0] and
    [q.x^2 = q.y^2], the chain of [rotationMatrixToQuaternion] falls to its
    last arm although [tr3] is the smallest quantity, and the pivot
    [q(3)] of that arm is zero: the three other components are quotients
    by [4 * q(3) = 0]. *)
Theorem round_trip_degenerate (q : Vector4d) :
  unit_quaternion q ->
  4 * (v4_0 q * v4_0 q) <= 1 -> v4_3 q = 0 ->
  v4_1 q * v4_1 q = v4_2 q * v4_2 q ->
  selected_branch (quaternionToRotationMatrix q) = BranchZ /\
  (forall b, branch_trace BranchZ (quaternionToRotationMatrix q)
             <= branch_trace b (quaternionToRotationMatrix q)) /\
  v4_3 (rotationMatrixToQuaternion (quaternionToRotationMatrix q)) = 0 /\
  4 * (sqrt (1 + trace3 (quaternionToRotationMatrix q)) / 2) = 0.
Proof.
  intros Hunit Hw Hz Hxy.
  destruct (traces_of_unit_quaternion q Hunit) as (T0 & T1 & T2 & T3).
  assert (Hpivot : sqrt (1 + trace3 (quaternionToRotationMatrix q)) / 2 = 0).
  { rewrite T3, Hz. replace (4 * (0 * 0)) with 0 by ring. rewrite sqrt_0. lra. }
  assert (HZ : selected_branch (quaternionToRotationMatrix q) = BranchZ).
  { pose proof (selected_branch_inv (quaternionToRotationMatrix q)) as Hinv.
    destruct (selected_branch (quaternionToRotationMatrix q));
      [exfalso; lra | exfalso; lra | exfalso; lra | reflexivity]. }
  split; [exact HZ|]. split.
  - rewrite Hz in T3.
    pose proof (Rle_0_sqr (v4_0 q)) as S0. pose proof (Rle_0_sqr (v4_1 q)) as S1.
    pose proof (Rle_0_sqr (v4_2 q)) as S2. unfold Rsqr in *.
    intros []; simpl; lra.
  - split; [|lra].
    unfold rotationMatrixToQuaternion. rewrite HZ. cbv zeta. cbn [v4_3].
    exact Hpivot.
Qed.

Lemma round_trip_degenerate_witness :
  selected_branch
    (quaternionToRotationMatrix (mkVector4d (1 / 3) (2 / 3) (2 / 3) 0))
  = BranchZ.
Proof.
  apply (proj1 (round_trip_degenerate (mkVector4d (1 / 3) (2 / 3) (2 / 3) 0)
    ltac:(unfold unit_quaternion; simpl; lra)
    ltac:(simpl; lra) eq_refl ltac:(simpl; lra))).
Defined.

(* ================================================================== *)
(** * Further properties: axis and angle *)

Lemma norm_div_norm (a : Vector3d) :
  0 < V3.norm a -> V3.norm (V3.div a (V3.norm a)) = 1.
Proof.
  intros Hpos. unfold V3.norm at 1, V3.div. cbn [v3_0 v3_1 v3_2].
  set (n := V3.norm a) in *.
  assert (Hsq : n * n = v3_0 a * v3_0 a + v3_1 a * v3_1 a + v3_2 a * v3_2 a).
  { unfold n, V3.norm. apply sqrt_sqrt. nra. }
  replace (v3_0 a / n * (v3_0 a / n) + v3_1 a / n * (v3_1 a / n)
           + v3_2 a / n * (v3_2 a / n)) with 1.
  - apply sqrt_1.
  - assert (Hn : n <> 0) by lra.
    apply (Rmult_eq_reg_r (n * n)); [|nra].
    replace ((v3_0 a / n * (v3_0 a / n) + v3_1 a / n * (v3_1 a / n)
              + v3_2 a / n * (v3_2 a / n)) * (n * n))
      with (v3_0 a * v3_0 a + v3_1 a * v3_1 a + v3_2 a * v3_2 a)
      by (field; exact Hn).
    lra.
Qed.

(** X5. The axis [quaternionToAxisAngle] answers has norm one when the
    vector part of the quaternion has norm at least 1e-3; below, the axis
    is not normalised and its norm stays under 1e-3.  For [q.w] between -1
    and 1 the angle lies between 0 and two pi. *)
Theorem axis_norm_and_angle_range (q : Vector4d) :
  (1 / 1000 <= V3.norm (segment_1_3 q) ->
   V3.norm (fst (quaternionToAxisAngle q)) = 1) /\
  (V3.norm (segment_1_3 q) < 1 / 1000 ->
   V3.norm (fst (quaternionToAxisAngle q)) < 1 / 1000) /\
  (-1 <= v4_0 q <= 1 -> 0 <= snd (quaternionToAxisAngle q) <= 2 * PI).
Proof.
  unfold quaternionToAxisAngle. cbn [fst snd]. repeat split.
  - intros Hge. rewrite (proj2 (Rltb_false _ _) Hge).
    apply norm_div_norm. lra.
  - intros Hlt. now rewrite (proj2 (Rltb_true _ _) Hlt).
  - pose proof (acos_bound (v4_0 q)). lra.
  - pose proof (acos_bound (v4_0 q)). lra.
Qed.

Lemma axis_norm_and_angle_range_witness :
  V3.norm (fst (quaternionToAxisAngle Examples.q_half_turn)) = 1 /\
  V3.norm (fst (quaternionToAxisAngle Examples.q_identity)) < 1 / 1000 /\
  0 <= snd (quaternionToAxisAngle Examples.q_x) <= 2 * PI.
Proof.
  split; [|split].
  - apply (proj1 (axis_norm_and_angle_range Examples.q_half_turn)).
    rewrite norm_segment_half_turn. lra.
  - apply (proj1 (proj2 (axis_norm_and_angle_range Examples.q_identity))).
    rewrite norm_segment_identity. lra.
  - apply (proj2 (proj2 (axis_norm_and_angle_range Examples.q_x))).
    unfold Examples.q_x; simpl. lra.
Defined.

(* ================================================================== *)
(** * Further properties: damping and clamping *)

Lemma damped_value_bound (sigma : R) :
  - (5 / 2) <= damped_value (damping true) sigma <= 5 / 2.
Proof.
  unfold damped_value, divisor, damping.
  set (d := sigma * sigma + 2 / 10 * (2 / 10)).
  assert (Hd : 0 < d) by (unfold d; nra).
  assert (Hq : sigma / d * d = sigma) by (field; lra).
  assert (Hup : sigma <= 5 / 2 * d).
  { unfold d. pose proof (Rle_0_sqr (sigma - 2 / 10)) as Hsq.
    unfold Rsqr in Hsq. nra. }
  assert (Hlow : - (5 / 2 * d) <= sigma).
  { unfold d. pose proof (Rle_0_sqr (sigma + 2 / 10)) as Hsq.
    unfold Rsqr in Hsq. nra. }
  split.
  - apply (Rmult_le_reg_r d); [exact Hd|]. rewrite Hq. lra.
  - apply (Rmult_le_reg_r d); [exact Hd|]. rewrite Hq. lra.
Qed.

(** X6. With damping every value the loop of [pseudo_inverse] writes lies
    between -5/2 and 5/2, so every coefficient of the matrix [S_] does,
    however small the singular values; the bound is reached at the
    singular value 0.2.  Without damping the value written for a singular
    value that is not zero is its reciprocal. *)
Theorem damped_values_bounded :
  (forall sigma, - (5 / 2) <= damped_value (damping true) sigma <= 5 / 2) /\
  damped_value (damping true) (2 / 10) = 5 / 2 /\
  (forall sv r c a b, (a < r)%nat -> (b < c)%nat ->
     Rabs (MX.coeff
             (fill_diagonal (damping true) sv (length sv) (MX.Zero r c)) a b)
     <= 5 / 2) /\
  (forall sigma, sigma <> 0 -> damped_value (damping false) sigma = / sigma).
Proof.
  split; [exact damped_value_bound|]. split.
  { unfold damped_value, divisor, damping. field. }
  split.
  - intros sv r c a b Ha Hb.
    destruct (fill_diagonal_zero (damping true) sv r c (length sv))
      as (_ & _ & Hcoeff).
    rewrite (Hcoeff a b Ha Hb).
    destruct (Nat.eqb a b && Nat.ltb a (length sv)).
    + apply Rabs_le. apply damped_value_bound.
    + rewrite Rabs_R0. lra.
  - intros sigma Hnz. unfold damped_value, divisor, damping. field. exact Hnz.
Qed.


Section Clamp.

Context `{PDS : PassiveDSController}.

Variable c : DSImpedanceController.
Variable i : nat.

Ltac clamp_cases :=
  unfold enforceJointLimits, Rgtb, Rltb;
  repeat match goal with
         | |- context [Rlt_dec ?a ?b] => destruct (Rlt_dec a b)
         end.

(** X7. Whatever the limit of a joint, its sign included, the effort
    [enforceJointLimits] answers is no larger in absolute value than the
    limit.  For a limit that is not negative the function is idempotent
    and monotone; for a negative limit it never lets the torque through:
    it answers the limit above it and the negated limit otherwise. *)
Theorem enforceJointLimits_properties :
  (forall t, Rabs (enforceJointLimits c t i) <= Rabs (joint_urdfs_ c i)) /\
  (0 <= joint_urdfs_ c i ->
   (forall t, enforceJointLimits c (enforceJointLimits c t i) i
              = enforceJointLimits c t i) /\
   (forall t1 t2, t1 <= t2 ->
      enforceJointLimits c t1 i <= enforceJointLimits c t2 i)) /\
  (joint_urdfs_ c i < 0 ->
   forall t,
     (joint_urdfs_ c i < t -> enforceJointLimits c t i = joint_urdfs_ c i) /\
     (t <= joint_urdfs_ c i -> enforceJointLimits c t i = - joint_urdfs_ c i)).
Proof.
  split; [|split].
  - intros t. clamp_cases; unfold Rabs; repeat destruct Rcase_abs; lra.
  - intros Hlimit. split.
    + intros t. clamp_cases; lra.
    + intros t1 t2 Hle. clamp_cases; lra.
  - intros Hneg t. split; intros Ht; clamp_cases; lra.
Qed.

End Clamp.

Lemma enforceJointLimits_properties_witness :
  @enforceJointLimits Examples.pds Examples.active
    (@enforceJointLimits Examples.pds Examples.active 150 0) 0
  = @enforceJointLimits Examples.pds Examples.active 150 0.
Proof.
  apply (proj1 (proj1 (proj2
    (@enforceJointLimits_properties Examples.pds Examples.active 0%nat))
    ltac:(simpl; lra))).
Defined.

(* ================================================================== *)
(** * Further properties: one cycle *)

Lemma rotationMatrixToQuaternion_identity :
  rotationMatrixToQuaternion M3.identity = Examples.q_identity.
Proof.
  unfold rotationMatrixToQuaternion.
  rewrite (selected_branch_W M3.identity)
    by (unfold trace0, M3.identity; simpl; lra).
  unfold M3.identity, Examples.q_identity.
  cbn [m00 m01 m02 m10 m11 m12 m20 m21 m22]. cbv zeta.
  replace (1 + (1 + 1 + 1)) with (4 * (1 * 1)) by ring.
  rewrite pivot_abs, Rabs_R1. f_equal; field.
Qed.

Lemma axis_angle_identity :
  quaternionToAxisAngle Examples.q_identity = (V3.zero, 0).
Proof.
  unfold quaternionToAxisAngle. rewrite norm_segment_identity.
  rewrite (proj2 (Rltb_true 0 (1 / 1000))) by lra.
  unfold Examples.q_identity at 2. cbn [v4_0]. rewrite acos_1.
  unfold segment_1_3, V3.zero, Examples.q_identity; simpl. f_equal. lra.
Qed.


Lemma read_commands_defined (commands : list R) :
  (10 <= length commands)%nat <-> read_commands commands <> None.
Proof.
  unfold read_commands.
  destruct commands as [|c0 [|c1 [|c2 [|c3 [|c4 [|c5 [|c6 [|c7 [|c8 [|c9 rest]]]]]]]]]];
    simpl; split; intros H; try lia; try congruence; try discriminate.
Qed.




Section OneCycle.

Context `{PDS : PassiveDSController} `{Tools : IiwaTools} `{SVD : JacobiSVD}.

Variable c : DSImpedanceController.
Variable hw : Hardware.




(** What a cycle leaves alone. *)
Lemma update_frame c' calls :
  update c hw = Some (c', calls) ->
  n_joints_ c' = n_joints_ c /\ joint_urdfs_ c' = joint_urdfs_ c /\
  firstCommand_ c' = firstCommand_ c /\ useNullSpace_ c' = useNullSpace_ c /\
  rotationalStiffness_ c' = rotationalStiffness_ c /\
  rotationalDamping_ c' = rotationalDamping_ c /\
  jointLimitsGain_ c' = jointLimitsGain_ c /\
  desiredJointsGain_ c' = desiredJointsGain_ c /\
  jointVelocitiesGain_ c' = jointVelocitiesGain_ c /\
  j0_ c' = j0_ c /\ commands_buffer_ c' = commands_buffer_ c.
Proof.
  unfold update, update_active. destruct (firstCommand_ c) eqn:Hfirst.
  - destruct (read_commands (commands_buffer_ c)) as [[[vd omegad] qd]|];
      [|discriminate].
    unfold quaternionToAxisAngle. cbv zeta.
    intros H. injection H as <- _.
    cbn [n_joints_ joint_urdfs_ firstCommand_ useNullSpace_
         rotationalStiffness_ rotationalDamping_ jointLimitsGain_
         desiredJointsGain_ jointVelocitiesGain_ j0_ commands_buffer_].
    repeat split; exact Hfirst.
  - intros H. injection H as <- _. repeat split; exact Hfirst.
Qed.

End OneCycle.





Section CycleLaws.

Context `{PDS : PassiveDSController} `{Tools : IiwaTools} `{SVD : JacobiSVD}.

Variable c : DSImpedanceController.
Variable hw : Hardware.
Variables vx vy vz wx wy wz qw qx qy qz : R.
Variable rest : list R.

(** X9. In an active cycle whose desired quaternion has norm one and is
    the orientation the kinematics answers, or its opposite, the error
    rotation is the identity, the axis is the zero vector and the angle is
    zero: the stiffness gives no torque and the rotational part of the
    wrench is [damping * (omegad - omega)]. *)
Theorem aligned_orientation_leaves_damping_only :
  commands_buffer_ c
    = vx :: vy :: vz :: wx :: wy :: wz :: qw :: qx :: qy :: qz :: rest ->
  unit_quaternion (mkVector4d qw qx qy qz) ->
  orientation (perform_fk (robot_state_of (n_joints_ c) hw))
    = mkVector4d qw qx qy qz \/
  orientation (perform_fk (robot_state_of (n_joints_ c) hw))
    = V4_opp (mkVector4d qw qx qy qz) ->
  exists c' l calls,
    update_active c hw = Some (c', l, calls) /\
    l_Re l = M3.identity /\ l_axis l = V3.zero /\ l_angle l = 0 /\
    l_Frot l = V3.scale (rotationalDamping_ c)
                 (V3.sub (mkVector3d wx wy wz) (l_omega l)).
Proof.
  intros Hbuf Hunit Hq.
  destruct (update_active_run c hw vx vy vz wx wy wz qw qx qy qz rest Hbuf)
    as (c' & l & calls & Hrun & _ & _ & Homega & _ & _ & HRe & Haxis & Hangle
        & HFrot & _).
  exists c', l, calls. split; [exact Hrun|].
  assert (HI : l_Re l = M3.identity).
  { rewrite HRe.
    assert (Hsame : quaternionToRotationMatrix
                      (orientation (perform_fk (robot_state_of (n_joints_ c) hw)))
                    = quaternionToRotationMatrix (mkVector4d qw qx qy qz)).
    { destruct Hq as [-> | ->];
        [reflexivity | apply quaternionToRotationMatrix_opp]. }
    rewrite Hsame.
    apply M3_mul_inverse.
    destruct (quaternionToRotationMatrix_rotation _ Hunit)
      as (_ & _ & _ & _ & _ & _ & Hdet). lra. }
  rewrite HI, rotationMatrixToQuaternion_identity in Haxis, Hangle.
  rewrite axis_angle_identity in Haxis. cbn [fst] in Haxis.
  unfold Examples.q_identity in Hangle. cbn [v4_0] in Hangle.
  rewrite acos_1 in Hangle.
  assert (Hzero : l_angle l = 0) by lra.
  repeat split; try assumption.
  rewrite HFrot, Haxis, Hzero, Homega.
  unfold V3.add, V3.scale, V3.sub, V3.zero. cbn [v3_0 v3_1 v3_2].
  f_equal; ring.
Qed.

(** X10. Negating the four quaternion values of a command changes nothing
    in the cycle that follows: the locals, and with them every call and
    every effort handed to the joints, are the same. *)
Theorem desired_quaternion_sign_is_irrelevant :
  exists c1 c2 l calls,
    update_active
      (fst (commandCB c [vx; vy; vz; wx; wy; wz; qw; qx; qy; qz])) hw
      = Some (c1, l, calls) /\
    update_active
      (fst (commandCB c [vx; vy; vz; wx; wy; wz; - qw; - qx; - qy; - qz])) hw
      = Some (c2, l, calls) /\
    update (fst (commandCB c [vx; vy; vz; wx; wy; wz; qw; qx; qy; qz])) hw
      = Some (c1, calls) /\
    update (fst (commandCB c [vx; vy; vz; wx; wy; wz; - qw; - qx; - qy; - qz])) hw
      = Some (c2, calls).
Proof.
  unfold commandCB. cbn [length Nat.eqb negb]. rewrite !andb_false_r.
  cbn [fst]. unfold update.
  cbn [firstCommand_].
  replace (if negb (firstCommand_ c) then true else firstCommand_ c) with true
    by (destruct (firstCommand_ c); reflexivity).
  unfold update_active.
  cbn [commands_buffer_ read_commands n_joints_ passive_ds_ joint_urdfs_
       rotationalStiffness_ rotationalDamping_ jointLimitsGain_
       desiredJointsGain_ jointVelocitiesGain_ useNullSpace_ j0_].
  change (mkVector4d (- qw) (- qx) (- qy) (- qz))
    with (V4_opp (mkVector4d qw qx qy qz)).
  rewrite quaternionToRotationMatrix_opp.
  unfold quaternionToAxisAngle. cbv zeta.
  do 4 eexists. repeat split; reflexivity.
Qed.


End CycleLaws.

Lemma aligned_orientation_leaves_damping_only_witness :
  exists c' l calls,
    @update_active Examples.pds Examples.tools Examples.svd Examples.active
      Examples.hw = Some (c', l, calls) /\
    l_angle l = 0.
Proof.
  destruct (@aligned_orientation_leaves_damping_only Examples.pds
              Examples.tools Examples.svd Examples.active Examples.hw
              0 0 0 0 0 0 1 0 0 0 [] eq_refl q_identity_unit
              (or_introl eq_refl))
    as (c' & l & calls & Hrun & _ & _ & Hangle & _).
  exists c', l, calls. split; assumption.
Defined.

(* ================================================================== *)
(** * Further properties: callbacks and cycles in sequence *)



Section Sequences.

Context `{PDS : PassiveDSController} `{Tools : IiwaTools} `{SVD : JacobiSVD}.

(** X12. The buffer is a single slot in which the last accepted message
    wins: after two messages the controller is the one the second message
    alone leaves when the second is accepted, and the one the first
    message alone leaves when the second is rejected; in particular a
    message that arrives twice has the effect of arriving once. *)
Theorem last_accepted_message_wins (c : DSImpedanceController)
    (first second : list R) :
  (length second = n_joints_ c \/ length second = 10%nat ->
   fst (commandCB (fst (commandCB c first)) second) = fst (commandCB c second)) /\
  (length second <> n_joints_ c -> length second <> 10%nat ->
   fst (commandCB (fst (commandCB c first)) second) = fst (commandCB c first)) /\
  fst (commandCB (fst (commandCB c first)) first) = fst (commandCB c first).
Proof.
  unfold commandCB.
  destruct (Nat.eqb_spec (length first) (n_joints_ c)) as [Hf|Hf];
    destruct (Nat.eqb_spec (length first) 10) as [Hf10|Hf10];
    cbn [negb andb fst n_joints_ firstCommand_ commands_buffer_];
    destruct (Nat.eqb_spec (length second) (n_joints_ c)) as [Hs|Hs];
    destruct (Nat.eqb_spec (length second) 10) as [Hs10|Hs10];
    cbn [negb andb fst n_joints_ firstCommand_ joint_urdfs_ useNullSpace_
         rotationalStiffness_ rotationalDamping_ jointLimitsGain_
         desiredJointsGain_ jointVelocitiesGain_ j0_ passive_ds_ x_ q_ vd_
         omegad_ qd_ commands_buffer_];
    try rewrite (proj2 (Nat.eqb_eq _ _) Hf);
    try rewrite (proj2 (Nat.eqb_eq _ _) Hf10);
    try rewrite (proj2 (Nat.eqb_neq _ _) Hf);
    try rewrite (proj2 (Nat.eqb_neq _ _) Hf10);
    cbn [negb andb fst];
    repeat split; intros; try tauto; try lia;
    destruct (firstCommand_ c); reflexivity.
Qed.

(** X13. A message and a reconfiguration that arrive one after the other
    leave the same controller in either order. *)
Theorem command_and_reconfigure_commute (c : DSImpedanceController)
    (data : list R) (config : Config) :
  fst (commandCB (fst (dynamicReconfigureCallback c config)) data)
  = fst (dynamicReconfigureCallback (fst (commandCB c data)) config).
Proof.
  unfold commandCB, dynamicReconfigureCallback. cbn [fst n_joints_].
  destruct (negb _ && negb _); reflexivity.
Qed.

(** What one operation leaves alone. *)
Lemma step_frame (c c' : DSImpedanceController) (op : Op) (calls : list Call) :
  step c op = Some (c', calls) ->
  n_joints_ c' = n_joints_ c /\ joint_urdfs_ c' = joint_urdfs_ c /\
  j0_ c' = j0_ c /\
  (firstCommand_ c = true -> firstCommand_ c' = true).
Proof.
  destruct op as [data | config | hw]; cbn [step].
  - intros H. injection H as H. unfold commandCB in H.
    destruct (negb _ && negb _); injection H as <- _;
      cbn [n_joints_ joint_urdfs_ j0_ firstCommand_]; repeat split; auto;
      now destruct (firstCommand_ c).
  - unfold dynamicReconfigureCallback. intros H.
    injection H as <- _. repeat split; auto.
  - intros H. destruct (update_frame c hw c' calls H)
      as (Hn & Hl & Hf & _ & _ & _ & _ & _ & _ & Hj & _).
    repeat split; auto. intros Hc. now rewrite Hf.
Qed.

(** X14. Whatever messages, reconfigurations and cycles follow one
    another, the number of joints, the effort limits and the reference
    posture never change, and a controller that is active stays active:
    nothing clears the latch. *)
Theorem run_keeps_constants_and_latch (ops : list Op)
    (c c' : DSImpedanceController) (calls : list Call) :
  run c ops = Some (c', calls) ->
  n_joints_ c' = n_joints_ c /\ joint_urdfs_ c' = joint_urdfs_ c /\
  j0_ c' = j0_ c /\
  (firstCommand_ c = true -> firstCommand_ c' = true).
Proof.
  revert c calls. induction ops as [|op ops IH]; intros c calls; cbn [run].
  - intros H. injection H as <- _. auto.
  - destruct (step c op) as [[c1 calls1]|] eqn:Hstep; [|discriminate].
    destruct (run c1 ops) as [[c2 calls2]|] eqn:Hrun; [|discriminate].
    intros H. injection H as <- _.
    destruct (step_frame c c1 op calls1 Hstep) as (Hn & Hl & Hj & Hf).
    destruct (IH c1 calls2 Hrun) as (Hn' & Hl' & Hj' & Hf').
    repeat split; try congruence. auto.
Qed.

(** X15. As long as every message has a size that is neither the number
    of joints nor ten, a controller that is idle stays idle through
    reconfigurations and cycles: every operation has a result, the buffer
    is never written and every effort handed to a joint is 0. *)
Theorem idle_until_accepted_message (ops : list Op)
    (c : DSImpedanceController) :
  firstCommand_ c = false ->
  (forall data, In data (messages ops) ->
     length data <> n_joints_ c /\ length data <> 10%nat) ->
  exists c' calls,
    run c ops = Some (c', calls) /\
    firstCommand_ c' = false /\
    commands_buffer_ c' = commands_buffer_ c /\
    forall i effort, In (i, effort) (set_commands calls) -> effort = 0.
Proof.
  revert c. induction ops as [|op ops IH]; intros c Hidle Hsizes; cbn [run].
  - exists c, []. split; [reflexivity|]. split; [exact Hidle|].
    split; [reflexivity|]. intros i effort [].
  - assert (Hstep : exists c1 calls1,
              step c op = Some (c1, calls1) /\ firstCommand_ c1 = false /\
              commands_buffer_ c1 = commands_buffer_ c /\
              n_joints_ c1 = n_joints_ c /\
              forall i effort, In (i, effort) (set_commands calls1) -> effort = 0).
    { destruct op as [data | config | hw]; cbn [step].
      - destruct (Hsizes data) as [Hn H10]; [cbn; auto|].
        exists c, [CallRosError (length data)].
        unfold commandCB. apply Nat.eqb_neq in Hn, H10. rewrite Hn, H10.
        repeat split; auto. intros i effort [].
      - eexists _, _. split; [reflexivity|]. repeat split; auto.
        intros i effort [].
      - exists c, (map (fun i => CallSetCommand i 0) (seq 0 (n_joints_ c))).
        unfold update. rewrite Hidle. repeat split; auto.
        intros i effort Hin.
        rewrite (set_commands_map (fun _ => 0)) in Hin.
        apply in_map_iff in Hin as (k & Heq & _). now injection Heq. }
    destruct Hstep as (c1 & calls1 & -> & Hidle1 & Hbuf1 & Hn1 & Hzero1).
    destruct (IH c1 Hidle1) as (c2 & calls2 & -> & Hidle2 & Hbuf2 & Hzero2).
    { intros data Hin. rewrite Hn1. apply Hsizes.
      unfold messages in *. cbn [flat_map]. apply in_or_app. now right. }
    exists c2, (calls1 ++ calls2). repeat split; auto; [congruence|].
    intros i effort Hin. rewrite set_commands_app in Hin.
    apply in_app_or in Hin as [Hin|Hin]; eauto.
Qed.


End Sequences.

(* ================================================================== *)
(** * Further properties: initialisation *)

Lemma wait_urdf_defined (polls : list String.string) :
  wait_urdf polls <> None <->
  exists s, In s polls /\ s <> String.EmptyString.
Proof.
  induction polls as [|s later IH]; cbn [wait_urdf].
  - split; [congruence|]. intros (s & [] & _).
  - destruct (String.eqb_spec s String.EmptyString) as [->|Hne].
    + rewrite IH. split.
      * intros (s & Hin & Hs). exists s. split; [now right|exact Hs].
      * intros (s & [<-|Hin] & Hs); [congruence|]. now exists s.
    + split; [|congruence]. intros _. exists s. split; [now left|exact Hne].
Qed.

(** The loop over the joints ends well exactly when every name is
    registrable; the handles are then those of the names in their order
    and the limits pushed are the limits of the names. *)
Lemma init_joints_ok (env : InitEnv) (names : list String.string) :
  forall joints joint_urdfs joints' joint_urdfs',
    init_joints env names joints joint_urdfs = inr (joints', joint_urdfs') <->
    Forall (registrable env) names /\
    joints' = joints ++ names /\
    joint_urdfs' = joint_urdfs ++ map (effort_of env) names.
Proof.
  induction names as [|name later IH]; intros joints joint_urdfs joints'
    joint_urdfs'; cbn [init_joints map].
  - rewrite !app_nil_r. split.
    + intros H. injection H as <- <-. auto.
    + intros (_ & -> & ->). reflexivity.
  - unfold effort_of at 1.
    destruct (env_getHandle env name) eqn:Hhandle.
    + destruct (env_getJoint env name) as [effort|] eqn:Hjoint.
      * rewrite IH, <- !app_assoc. cbn [app]. split.
        -- intros (Hall & -> & ->). split; [|auto].
           constructor; [split; congruence|exact Hall].
        -- intros (Hall & -> & ->). inversion Hall. auto.
      * split; [discriminate|]. intros (Hall & _). inversion Hall as [|? ? [_ Hreg] _].
        congruence.
    + split; [discriminate|]. intros (Hall & _). inversion Hall as [|? ? [Hreg _] _].
      congruence.
Qed.

(** The loop over the joints stops at the first name that is not
    registrable, the handle being asked for before the URDF model. *)
Lemma init_joints_first_failure (env : InitEnv)
    (before after : list String.string) (name : String.string) :
  Forall (registrable env) before ->
  forall joints joint_urdfs,
    (env_getHandle env name = false ->
     init_joints env (before ++ name :: after) joints joint_urdfs
     = inl (ErrHandle name)) /\
    (env_getHandle env name = true -> env_getJoint env name = None ->
     init_joints env (before ++ name :: after) joints joint_urdfs
     = inl (ErrJointNotInUrdf name)).
Proof.
  induction before as [|b before IH]; intros Hall joints joint_urdfs;
    cbn [app init_joints].
  - split.
    + intros ->. reflexivity.
    + intros -> ->. reflexivity.
  - inversion Hall as [|? ? [Hhandle Hjoint] Hrest]. subst.
    rewrite Hhandle. destruct (env_getJoint env b); [|congruence].
    apply IH. exact Hrest.
Qed.

Section Initialisation.

Context `{PDS : PassiveDSController} `{PI : !PassiveDSInit}.

Variable c : DSImpedanceController.
Variable env : InitEnv.

(** The controller [init] leaves when it returns true. *)
Lemma init_inv (c' : DSImpedanceController) (joints : list String.string) :
  init c env = Some (inr (c', joints)) ->
  Forall (registrable env) (env_getNames env) /\
  n_joints_ c' = length (env_getNames env) /\
  (0 < n_joints_ c')%nat /\
  joints = env_getNames env /\
  joint_urdfs_ c'
    = (fun i => nth i (map (effort_of env) (env_getNames env)) 0) /\
  commands_buffer_ c' = repeat 0 10%nat /\
  firstCommand_ c' = firstCommand_ c /\ j0_ c' = j0_ c /\
  match env_setCallback env with
  | Some config =>
      rotationalStiffness_ c' = rotationalStiffness config /\
      rotationalDamping_ c' = rotationalDamping config /\
      jointLimitsGain_ c' = jointLimitsGain config /\
      desiredJointsGain_ c' = desiredJointsGain config /\
      jointVelocitiesGain_ c' = jointVelocitiesGain config /\
      useNullSpace_ c' = useNullSpace config /\
      passive_ds_ c'
        = SetParams 3 [gain0 config; gain1 config; gain1 config]
            (Init (SetParams 3 [1; 1; 1] (passive_ds_ c)))
  | None =>
      rotationalStiffness_ c' = rotationalStiffness_ c /\
      rotationalDamping_ c' = rotationalDamping_ c /\
      jointLimitsGain_ c' = jointLimitsGain_ c /\
      desiredJointsGain_ c' = desiredJointsGain_ c /\
      jointVelocitiesGain_ c' = jointVelocitiesGain_ c /\
      useNullSpace_ c' = useNullSpace_ c /\
      passive_ds_ c' = Init (SetParams 3 [1; 1; 1] (passive_ds_ c))
  end.
Proof.
  unfold init.
  destruct (Nat.eqb_spec (length (env_getNames env)) 0) as [|Hlen]; [discriminate|].
  destruct (env_initParam env); cbn [negb]; [|discriminate].
  destruct (env_searchParam env); cbn [negb]; [|discriminate].
  destruct (wait_urdf (env_getParam env)) as [urdf_string|]; [|discriminate].
  destruct (init_joints env (env_getNames env) [] []) as [e|[js ls]] eqn:Hloop;
    [discriminate|].
  apply init_joints_ok in Hloop as (Hall & -> & ->). cbn [app].
  intros Heq. injection Heq as <- <-.
  destruct (env_setCallback env) as [config|];
    unfold dynamicReconfigureCallback;
    cbn [fst n_joints_ joint_urdfs_ commands_buffer_ passive_ds_ firstCommand_
         useNullSpace_ rotationalStiffness_ rotationalDamping_
         jointLimitsGain_ desiredJointsGain_ jointVelocitiesGain_ j0_];
    (split; [exact Hall|]); (split; [reflexivity|]); (split; [lia|]);
    repeat split.
Qed.

(** X17. [init] returns true exactly when the list of joint names is not
    empty, the URDF model and the parameter are found, some poll answers
    a model string that is not empty, and every joint has a handle and is
    known to the URDF model. *)
Theorem init_succeeds_iff :
  (exists c' joints, init c env = Some (inr (c', joints))) <->
  env_getNames env <> [] /\
  env_initParam env = true /\
  env_searchParam env = true /\
  (exists s, In s (env_getParam env) /\ s <> String.EmptyString) /\
  Forall (registrable env) (env_getNames env).
Proof.
  unfold init. rewrite <- wait_urdf_defined.
  destruct (env_getNames env) as [|name names] eqn:Hnames.
  - cbn. split; [intros (? & ? & ?); discriminate|]. intros (H & _). congruence.
  - cbn [length Nat.eqb].
    destruct (env_initParam env); cbn [negb];
      [|split; [intros (? & ? & ?); discriminate|intros (_ & ? & _); discriminate]].
    destruct (env_searchParam env); cbn [negb];
      [|split; [intros (? & ? & ?); discriminate
               |intros (_ & _ & ? & _); discriminate]].
    destruct (wait_urdf (env_getParam env)) as [urdf_string|];
      [|split; [intros (? & ? & ?); discriminate
               |intros (_ & _ & _ & ? & _); congruence]].
    destruct (init_joints env (name :: names) [] []) as [e|[joints ls]] eqn:Hloop.
    + split; [intros (? & ? & ?); discriminate|].
      intros (_ & _ & _ & _ & Hall).
      assert (Hok : init_joints env (name :: names) [] []
                    = inr ([] ++ name :: names,
                           [] ++ map (effort_of env) (name :: names)))
        by (apply init_joints_ok; auto).
      congruence.
    + apply init_joints_ok in Hloop as (Hall & _). split.
      * intros _. repeat split; auto; congruence.
      * intros _. eauto.
Qed.

(** X18. When [init] returns true, the controller counts the joints
    named, holds one handle per name in the order of the names, the limit
    of joint [i] is the effort limit the URDF model gives for the [i]-th
    name, the buffer holds ten zeros, and the latch and the reference
    posture are those of the constructed object.  The primitive has
    received the dimension 3 with eigenvalues 1, 1, 1 and then [Init];
    the gains are those of the constructed object, unless the reconfigure
    server called back at registration, in which case they are those of
    its configuration. *)
Theorem init_state (c' : DSImpedanceController) (joints : list String.string) :
  init c env = Some (inr (c', joints)) ->
  n_joints_ c' = length (env_getNames env) /\
  (0 < n_joints_ c')%nat /\
  joints = env_getNames env /\
  (forall i, (i < n_joints_ c')%nat ->
     env_getHandle env (nth i (env_getNames env) String.EmptyString) = true /\
     env_getJoint env (nth i (env_getNames env) String.EmptyString)
     = Some (joint_urdfs_ c' i)) /\
  commands_buffer_ c' = repeat 0 10%nat /\
  firstCommand_ c' = firstCommand_ c /\ j0_ c' = j0_ c /\
  (env_setCallback env = None ->
   rotationalStiffness_ c' = rotationalStiffness_ c /\
   rotationalDamping_ c' = rotationalDamping_ c /\
   jointLimitsGain_ c' = jointLimitsGain_ c /\
   desiredJointsGain_ c' = desiredJointsGain_ c /\
   jointVelocitiesGain_ c' = jointVelocitiesGain_ c /\
   passive_ds_ c' = Init (SetParams 3 [1; 1; 1] (passive_ds_ c))) /\
  (forall config, env_setCallback env = Some config ->
   rotationalStiffness_ c' = rotationalStiffness config /\
   rotationalDamping_ c' = rotationalDamping config /\
   jointLimitsGain_ c' = jointLimitsGain config /\
   desiredJointsGain_ c' = desiredJointsGain config /\
   jointVelocitiesGain_ c' = jointVelocitiesGain config /\
   passive_ds_ c'
     = SetParams 3 [gain0 config; gain1 config; gain1 config]
         (Init (SetParams 3 [1; 1; 1] (passive_ds_ c)))).
Proof.
  intros Hinit.
  destruct (init_inv c' joints Hinit)
    as (Hall & Hn & Hpos & Hjoints & Hlimits & Hbuf & Hfirst & Hj0 & Hgains).
  split; [exact Hn|]. split; [exact Hpos|]. split; [exact Hjoints|].
  split.
  { intros i Hi. rewrite Hn in Hi. rewrite Hlimits.
    rewrite (nth_indep _ 0 (effort_of env String.EmptyString))
      by (rewrite length_map; exact Hi).
    rewrite map_nth.
    assert (Hreg : registrable env (nth i (env_getNames env) String.EmptyString)).
    { rewrite Forall_forall in Hall. apply Hall. now apply nth_In. }
    destruct Hreg as [Hhandle Hjoint]. split; [exact Hhandle|].
    unfold effort_of.
    now destruct (env_getJoint env (nth i (env_getNames env) String.EmptyString)). }
  split; [exact Hbuf|]. split; [exact Hfirst|]. split; [exact Hj0|]. split.
  - intros Hnone. rewrite Hnone in Hgains. tauto.
  - intros config Hsome. rewrite Hsome in Hgains. tauto.
Qed.

(** X19. [init] returns false on an empty list of joint names whatever
    else holds.  Past the checks on the model, it returns false at the
    first joint, in the order of the names, that has no handle or that the
    URDF model does not know, the handle being asked for first, and it
    reports that joint. *)
Theorem init_reports_first_bad_joint
    (before after : list String.string) (name : String.string) :
  (env_getNames env = [] -> init c env = Some (inl ErrEmptyJointNames)) /\
  (env_getNames env = before ++ name :: after ->
   env_initParam env = true -> env_searchParam env = true ->
   wait_urdf (env_getParam env) <> None ->
   Forall (registrable env) before ->
   (env_getHandle env name = false ->
    init c env = Some (inl (ErrHandle name))) /\
   (env_getHandle env name = true -> env_getJoint env name = None ->
    init c env = Some (inl (ErrJointNotInUrdf name)))).
Proof.
  split.
  - intros Hnames. unfold init. now rewrite Hnames.
  - intros Hnames Hparse Hsearch Hwait Hbefore. unfold init.
    rewrite Hnames, Hparse, Hsearch.
    assert (Hlen : Nat.eqb (length (before ++ name :: after)) 0 = false).
    { apply Nat.eqb_neq. rewrite length_app. cbn [length]. lia. }
    rewrite Hlen. cbn [negb].
    destruct (wait_urdf (env_getParam env)) as [urdf_string|]; [|congruence].
    destruct (init_joints_first_failure env before after name Hbefore [] [])
      as [Hhandle Hjoint].
    split.
    + intros H. now rewrite (Hhandle H).
    + intros H1 H2. now rewrite (Hjoint H1 H2).
Qed.

End Initialisation.

Lemma init_succeeds_iff_witness :
  exists c' joints,
    @init Examples.pds Scenario.pds_init (construct Examples.idle) Scenario.env
    = Some (inr (c', joints)).
Proof.
  apply (proj2 (@init_succeeds_iff Examples.pds Scenario.pds_init
                  (construct Examples.idle) Scenario.env)).
  split; [discriminate|]. split; [reflexivity|]. split; [reflexivity|]. split.
  - exists "<robot/>"%string. split; [cbn; auto|discriminate].
  - unfold Scenario.env, Scenario.names. cbn [env_getNames].
    repeat constructor; discriminate.
Defined.

Lemma init_state_witness :
  exists c' joints,
    @init Examples.pds Scenario.pds_init (construct Examples.idle) Scenario.env
    = Some (inr (c', joints)) /\
    n_joints_ c' = 7%nat /\ rotationalStiffness_ c' = 10.
Proof.
  assert (Hdef : exists c' joints,
            @init Examples.pds Scenario.pds_init (construct Examples.idle)
              Scenario.env = Some (inr (c', joints)))
    by (do 2 eexists; reflexivity).
  destruct Hdef as (c' & joints & Hinit).
  exists c', joints. split; [exact Hinit|].
  destruct (@init_state Examples.pds Scenario.pds_init
              (construct Examples.idle) Scenario.env c' joints Hinit)
    as (Hn & _ & _ & _ & _ & _ & _ & _ & Hconfig).
  split; [exact Hn|].
  exact (proj1 (Hconfig Examples.config eq_refl)).
Defined.

Lemma init_reports_first_bad_joint_witness :
  @init Examples.pds Scenario.pds_init (construct Examples.idle)
    Scenario.env_missing
  = Some (inl (ErrJointNotInUrdf "iiwa_joint_3"%string)).
Proof.
  exact (proj2 (proj2 (@init_reports_first_bad_joint Examples.pds
           Scenario.pds_init (construct Examples.idle) Scenario.env_missing
           ["iiwa_joint_1"; "iiwa_joint_2"]%string
           ["iiwa_joint_4"; "iiwa_joint_5"; "iiwa_joint_6"; "iiwa_joint_7"]%string
           "iiwa_joint_3"%string)
         eq_refl eq_refl eq_refl ltac:(discriminate)
         ltac:(repeat constructor; discriminate))
         eq_refl eq_refl).
Defined.

(* ================================================================== *)
(** * Further properties: from the URDF model to the joints *)

Section EndToEnd.

Context `{PDS : PassiveDSController} `{PI : !PassiveDSInit}
        `{Tools : IiwaTools} `{SVD : JacobiSVD}.



End EndToEnd.

(* ================================================================== *)
(** * The error quaternion and the axis-angle of the error rotation *)












(* ================================================================== *)
(** * Coefficients of the products of the cycle *)

Lemma sum_upto_ext (n : nat) (f g : nat -> R) :
  (forall k, (k < n)%nat -> f k = g k) -> sum_upto n f = sum_upto n g.
Proof.
  induction n as [|n IH]; intros H; simpl; [reflexivity|].
  rewrite IH, H by (intros; try apply H; lia). reflexivity.
Qed.

Lemma coeff_mul_vec (A : MatrixXd) (v : VectorXd) (i : nat) :
  (i < MX.rows A)%nat ->
  VX.coeff (MX.mul_vec A v) i
  = sum_upto (MX.cols A) (fun k => MX.coeff A i k * VX.coeff v k).
Proof. intros Hi. unfold MX.mul_vec. now rewrite nth_build. Qed.

Lemma length_mul_vec (A : MatrixXd) (v : VectorXd) :
  length (MX.mul_vec A v) = MX.rows A.
Proof. apply length_build. Qed.

Lemma jacobian_shape_cols (n : nat) (J : MatrixXd) :
  jacobian_shape n J -> MX.cols J = n.
Proof.
  intros [Hrows Hrow]. unfold MX.cols. rewrite <- (Hrow 0%nat) by lia.
  destruct J; [discriminate|reflexivity].
Qed.

Lemma rows_transpose (n : nat) (J : MatrixXd) :
  jacobian_shape n J -> MX.rows (MX.transpose J) = n.
Proof.
  intros HJ. unfold MX.transpose. now rewrite rows_build, (jacobian_shape_cols n J).
Qed.

Lemma cols_transpose (n : nat) (J : MatrixXd) :
  jacobian_shape n J -> (0 < n)%nat -> MX.cols (MX.transpose J) = 6%nat.
Proof.
  intros HJ Hn. unfold MX.transpose.
  rewrite cols_build, (jacobian_shape_cols n J HJ).
  destruct HJ as [-> _]. destruct n; [lia|reflexivity].
Qed.

Lemma coeff_transpose (n : nat) (J : MatrixXd) (i k : nat) :
  jacobian_shape n J -> (i < n)%nat -> (k < 6)%nat ->
  MX.coeff (MX.transpose J) i k = MX.coeff J k i.
Proof.
  intros HJ Hi Hk. unfold MX.transpose.
  rewrite coeff_build; [reflexivity| |].
  - now rewrite (jacobian_shape_cols n J HJ).
  - destruct HJ as [-> _]. exact Hk.
Qed.



(* ================================================================== *)
(** * The control law of an active cycle *)

Section ControlLaw.

Context `{PDS : PassiveDSController} `{Tools : IiwaTools} `{SVD : JacobiSVD}.

Variable c : DSImpedanceController.
Variable hw : Hardware.
Variables vx vy vz wx wy wz qw qx qy qz : R.
Variable rest : list R.

Let n := n_joints_ c.
Let J := jacobian (robot_state_of n hw).
Let q := orientation (perform_fk (robot_state_of n hw)).
Let qd := mkVector4d qw qx qy qz.
Let qdot := getVelocity hw.


End ControlLaw.

Lemma coeff_sub (a b : VectorXd) (k : nat) :
  (k < length a)%nat -> VX.coeff (VX.sub a b) k = VX.coeff a k - VX.coeff b k.
Proof. intros Hk. unfold VX.sub. now rewrite nth_build. Qed.

Lemma coeff_scale (s : R) (a : VectorXd) (k : nat) :
  (k < length a)%nat -> VX.coeff (VX.scale s a) k = s * VX.coeff a k.
Proof. intros Hk. unfold VX.scale. now rewrite nth_build. Qed.

Lemma coeff_add (a b : VectorXd) (k : nat) :
  (k < length a)%nat -> VX.coeff (VX.add a b) k = VX.coeff a k + VX.coeff b k.
Proof. intros Hk. unfold VX.add. now rewrite nth_build. Qed.

Lemma length_sub (a b : VectorXd) : length (VX.sub a b) = length a.
Proof. apply length_build. Qed.

Lemma length_scale (s : R) (a : VectorXd) : length (VX.scale s a) = length a.
Proof. apply length_build. Qed.

Lemma length_add (a b : VectorXd) : length (VX.add a b) = length a.
Proof. apply length_build. Qed.

(** The pseudo-inverse in the form of the specification. *)
Lemma pseudo_inverse_spec_form `{JacobiSVD} (M : MatrixXd) :
  pseudo_inverse M true
  = MX.mul
      (MX.mul (matrixV M)
         (Spec.Sigma_damped (MX.rows M) (MX.cols M) true (singularValues M)))
      (MX.transpose (matrixU M)).
Proof.
  unfold pseudo_inverse, Spec.Sigma_damped.
  rewrite transpose_fill_diagonal. reflexivity.
Qed.

Lemma cols_pseudo_inverse `{JacobiSVD} (n : nat) (M : MatrixXd) :
  svd_shape n M -> (0 < n)%nat -> MX.cols (pseudo_inverse M true) = n.
Proof.
  intros (HU & HUc & HV) Hn. unfold pseudo_inverse, MX.mul, MX.transpose.
  rewrite cols_build, !rows_build, cols_build, HV, HUc, HU. cbn [Nat.eqb].
  destruct n; [lia|reflexivity].
Qed.

(** The nullspace projector, coefficient by coefficient. *)
Lemma coeff_projector `{JacobiSVD} (n : nat) (J : MatrixXd) (i j : nat) :
  jacobian_shape n J -> svd_shape n (MX.transpose J) ->
  (i < n)%nat -> (j < n)%nat ->
  MX.coeff
    (MX.sub (MX.Identity n n)
       (MX.mul (MX.transpose J) (pseudo_inverse (MX.transpose J) true))) i j
  = (if Nat.eqb i j then 1 else 0)
    - sum_upto 6
        (fun k => MX.coeff J k i
                  * MX.coeff (pseudo_inverse (MX.transpose J) true) k j).
Proof.
  intros HJ Hsvd Hi Hj. unfold MX.sub, MX.Identity at 1 2.
  rewrite rows_build, cols_build.
  assert (Hn : Nat.eqb n 0 = false) by (apply Nat.eqb_neq; lia).
  rewrite Hn, coeff_build by assumption. unfold MX.Identity.
  rewrite coeff_build by assumption. f_equal.
  unfold MX.mul at 1.
  rewrite coeff_build;
    [|now rewrite (rows_transpose n)
     |rewrite (cols_pseudo_inverse n) by (auto; lia); exact Hj].
  rewrite (cols_transpose n J HJ) by lia.
  apply sum_upto_ext. intros k Hk. now rewrite (coeff_transpose n).
Qed.

Section Redundancy.

Context `{PDS : PassiveDSController} `{Tools : IiwaTools} `{SVD : JacobiSVD}.

Variable c : DSImpedanceController.
Variable hw : Hardware.
Variables vx vy vz wx wy wz qw qx qy qz : R.
Variable rest : list R.

Let n := n_joints_ c.
Let J := jacobian (robot_state_of n hw).
Let Jt := MX.transpose J.

(** C3. In an active cycle with a 6 x n Jacobian [J], a reference posture
    of [n] entries and a full decomposition of [J^t]: the matrix [N] is
    [I - J^t * P], coefficient by coefficient, where [P] is the damped
    pseudo-inverse of the transposed Jacobian, [V * Sigma_damped * U^t];
    the secondary torque of joint [i] is the [i]-th coefficient of
    [N * (-jointLimitsGain*q - desiredPostureGain*(q - referencePosture)
    - jointVelocityGain*qdot)]; and the torque before clamping is the
    primary torque plus the secondary one when the nullspace is used and
    the primary torque alone otherwise. *)
Theorem secondary_torque_is_projected :
  firstCommand_ c = true ->
  commands_buffer_ c
    = vx :: vy :: vz :: wx :: wy :: wz :: qw :: qx :: qy :: qz :: rest ->
  jacobian_shape n J -> svd_shape n Jt -> length (j0_ c) = n ->
  exists c' l calls,
    update c hw = Some (c', calls) /\
    update_active c hw = Some (c', l, calls) /\
    (forall i j, (i < n)%nat -> (j < n)%nat ->
       MX.coeff (l_N l) i j
       = (if Nat.eqb i j then 1 else 0)
         - sum_upto 6
             (fun k =>
                MX.coeff J k i
                * MX.coeff
                    (MX.mul
                       (MX.mul (matrixV Jt)
                          (Spec.Sigma_damped (MX.rows Jt) (MX.cols Jt) true
                             (singularValues Jt)))
                       (MX.transpose (matrixU Jt))) k j)) /\
    length (l_nullspaceTorques l) = n /\
    (forall i, (i < n)%nat ->
       VX.coeff (l_nullspaceTorques l) i
       = sum_upto n
           (fun j =>
              MX.coeff (l_N l) i j
              * (- jointLimitsGain_ c * getPosition hw j
                 - desiredJointsGain_ c
                   * (getPosition hw j - VX.coeff (j0_ c) j)
                 - jointVelocitiesGain_ c * getVelocity hw j))) /\
    length (l_torques l) = n /\
    (forall i, (i < n)%nat ->
       VX.coeff (l_torques l) i
       = if useNullSpace_ c
         then VX.coeff (l_primary l) i + VX.coeff (l_nullspaceTorques l) i
         else VX.coeff (l_primary l) i).
Proof.
  intros Hfirst Hbuf HJ Hsvd Hj0.
  destruct (update_active_run c hw vx vy vz wx wy wz qw qx qy qz rest Hbuf)
    as (c' & l & calls & Hrun & _ & _ & _ & _ & _ & _ & _ & _ & _ & _
        & Hprimary & HN & Hnull & Htorques & _).
  exists c', l, calls.
  split; [now apply update_of_update_active with l|]. split; [exact Hrun|].
  assert (HrowsN : MX.rows (l_N l) = n).
  { rewrite HN. unfold MX.sub, MX.Identity. now rewrite !rows_build. }
  assert (Hlenp : length (l_primary l) = n).
  { rewrite Hprimary, length_mul_vec. apply (rows_transpose n J HJ). }
  split.
  { intros i j Hi Hj. rewrite HN.
    etransitivity; [exact (coeff_projector n J i j HJ Hsvd Hi Hj)|].
    fold Jt. now rewrite pseudo_inverse_spec_form. }
  split; [now rewrite Hnull, length_mul_vec|].
  split.
  { intros i Hi. rewrite Hnull, coeff_mul_vec by (rewrite HrowsN; exact Hi).
    assert (HcolsN : MX.cols (l_N l) = n).
    { rewrite HN. unfold MX.sub, MX.Identity. rewrite !rows_build, !cols_build.
      assert (Hn0 : Nat.eqb (n_joints_ c) 0 = false)
        by (apply Nat.eqb_neq; unfold n in Hi; lia).
      now rewrite !Hn0. }
    rewrite HcolsN. apply sum_upto_ext. intros j Hj. f_equal.
    unfold robot_state_of. cbn [position velocity].
    rewrite coeff_sub by (rewrite length_sub, length_scale, length_build; exact Hj).
    rewrite coeff_sub by (rewrite length_scale, length_build; exact Hj).
    rewrite !coeff_scale
      by (rewrite ?length_sub, length_build; exact Hj).
    rewrite coeff_sub by (rewrite length_build; exact Hj).
    now rewrite !nth_build by exact Hj. }
  split.
  { rewrite Htorques. destruct (useNullSpace_ c); [rewrite length_add|];
      exact Hlenp. }
  intros i Hi. rewrite Htorques. destruct (useNullSpace_ c); [|reflexivity].
  apply coeff_add. now rewrite Hlenp.
Qed.

End Redundancy.

Lemma identity_jacobian_shape (n : nat) : jacobian_shape n (MX.Identity 6 n).
Proof.
  split; [apply rows_build|]. intros i Hi. unfold MX.Identity.
  rewrite row_build by exact Hi. now rewrite length_map, length_seq.
Qed.

Lemma examples_svd_shape (n : nat) (J : MatrixXd) :
  jacobian_shape n J -> (0 < n)%nat ->
  @svd_shape Examples.svd n (MX.transpose J).
Proof.
  intros HJ Hn. unfold svd_shape, Examples.svd. cbn [matrixU matrixV].
  rewrite (rows_transpose n J HJ), (cols_transpose n J HJ Hn).
  unfold MX.Identity. rewrite !rows_build, cols_build.
  destruct n; [lia|]. now repeat split.
Qed.

Lemma moving_jacobian_shape :
  jacobian_shape 7
    (@jacobian Examples.tools (robot_state_of 7 Moving.hw)).
Proof.
  unfold Examples.tools, robot_state_of. cbn [jacobian position].
  rewrite length_build. apply identity_jacobian_shape.
Qed.




(** The cycle in motion, with every nullspace gain set. *)
Lemma secondary_torque_is_projected_witness :
  exists c' l calls,
    @update_active Examples.pds Examples.tools Examples.svd Moving.controller
      Moving.hw = Some (c', l, calls) /\
    length (l_nullspaceTorques l) = 7%nat /\
    VX.coeff (l_torques l) 0
    = VX.coeff (l_primary l) 0 + VX.coeff (l_nullspaceTorques l) 0.
Proof.
  destruct (@secondary_torque_is_projected Examples.pds Examples.tools
              Examples.svd Moving.controller Moving.hw
              1 0 0 0 0 1 (3 / 5) (4 / 5) 0 0 [] eq_refl eq_refl
              moving_jacobian_shape
              (examples_svd_shape 7 _ moving_jacobian_shape ltac:(lia))
              eq_refl)
    as (c' & l & calls & _ & Hrun & _ & Hlen & _ & _ & Htorques).
  exists c', l, calls. split; [exact Hrun|]. split; [exact Hlen|].
  apply (Htorques 0%nat). cbn. lia.
Defined.

(** A message of ten values followed by a cycle, from the idle example. *)
Lemma run_keeps_constants_and_latch_witness :
  n_joints_ (fst (@commandCB Examples.pds Examples.idle Examples.command)) = 7%nat /\
  firstCommand_
    (fst (@commandCB Examples.pds Examples.active Examples.short_command))
  = true.
Proof.
  split.
  - exact (proj1 (@run_keeps_constants_and_latch Examples.pds Examples.tools
                    Examples.svd [OpCommand Examples.command] Examples.idle
                    _ _ eq_refl)).
  - exact (proj2 (proj2 (proj2
             (@run_keeps_constants_and_latch Examples.pds Examples.tools
                Examples.svd [OpCommand Examples.short_command]
                Examples.active _ _ eq_refl))) eq_refl).
Defined.

(** A message of three values, a reconfiguration and a cycle, from the
    idle example. *)
Lemma idle_until_accepted_message_witness :
  exists c' calls,
    @run Examples.pds Examples.tools Examples.svd Examples.idle
      [OpCommand [1; 2; 3]; OpReconfigure Examples.config; OpCycle Examples.hw]
      = Some (c', calls) /\
    firstCommand_ c' = false.
Proof.
  destruct (@idle_until_accepted_message Examples.pds Examples.tools
              Examples.svd
              [OpCommand [1; 2; 3]; OpReconfigure Examples.config;
               OpCycle Examples.hw]
              Examples.idle eq_refl)
    as (c' & calls & Hrun & Hidle & _).
  - intros data [<- | []]. split; discriminate.
  - exists c', calls. split; assumption.
Defined.

(* ================================================================== *)
(** * The cycle in motion *)








